(** * coc-translator: the display commands ([src/commands/display.ts])

    A shallow embedding of the [Display] class: the content builder, the
    window-size computation, the centering pass of [popup], and the two
    secondary commands [echo] and [replace], followed by the properties
    the prose specification states about them.  The text-processing part
    of the documentation generator ([scripts/gendoc.ts]) is embedded in
    the module [Gendoc], with its own properties at the end.

    Conventions of the embedding.
    - A JavaScript string is the list of its UTF-16 code units, so that
      [String.prototype.length] is the length of the list.
    - The numbers the code handles are integers ([Z]): string lengths,
      configured sizes, the values of the editor options [&columns] and
      [&lines], and the answers of [strdisplaywidth].  Two computations
      leave the integers and are modelled as JavaScript performs them:
      [0.6 * n] is an IEEE 754 binary64 product (module [Float64]), and
      [line_width / maxWidth] may divide by zero, so the running height is
      a [number] that has the two infinities and NaN.
    - The editor is an oracle ([Neovim]) that answers queries; every call
      the code makes on it is recorded, in order, in a log.  A JavaScript
      exception is a [Throw] completion.  The editor answers every call:
      a call it rejects would end the method there, with the log so far,
      and is not represented; what is stated of a method is stated of
      the runs in which the editor answers. *)

From Stdlib Require Import ZArith NArith Lia SpecFloat.
From stdpp Require Import strings list.

Local Open Scope Z_scope.

(** ** JavaScript strings *)

Module JsString.

Definition jsstring := list N.

(** The code units of an ASCII literal of the source. *)
Fixpoint lit (s : string) : jsstring :=
  match s with
  | EmptyString => []
  | String a s' => Ascii.N_of_ascii a :: lit s'
  end.

(** [s.length] *)
Definition len (s : jsstring) : Z := Z.of_nat (length s).

(** [s.startsWith(p)] *)
Fixpoint startsWith (s p : jsstring) {struct p} : bool :=
  match p, s with
  | [], _ => true
  | _ :: _, [] => false
  | c :: p', d :: s' => N.eqb c d && startsWith s' p'
  end.

(** [xs.join(sep)] on an array of strings. *)
Definition join (sep : jsstring) (xs : list jsstring) : jsstring :=
  match xs with
  | [] => []
  | x :: rest => x ++ concat (map (fun y => sep ++ y) rest)
  end.

(** The three glyphs of the content builder, as surrogate pairs:
    U+1F509, U+1F4D5 and U+1F4DD. *)
Definition glyph_phonetic : jsstring := [0xD83D; 0xDD09]%N.
Definition glyph_paraphrase : jsstring := [0xD83D; 0xDCD5]%N.
Definition glyph_explain : jsstring := [0xD83D; 0xDCDD]%N.

(** The double quote, which the command of [replace] contains, and the
    line feed that joins the lines of the floating window. *)
Definition dquote : jsstring := [34%N].
Definition newline : jsstring := [10%N].

End JsString.
Export JsString.

(** ** Completions: a value or a thrown exception *)

Inductive exn := RangeError | TypeError.

Inductive completion (A : Type) :=
| Normal (a : A)
| Throw (e : exn).
Arguments Normal {A} a.
Arguments Throw {A} e.

(** [s.repeat(count)] for an integer [count]: a negative count throws a
    [RangeError]. *)
Definition String_repeat (s : jsstring) (count : Z) : completion jsstring :=
  if count <? 0 then Throw RangeError
  else Normal (concat (replicate (Z.to_nat count) s)).

(** ** Numbers *)

Inductive number :=
| Fin (z : Z)
| PInf
| NInf
| NaN.

Module Number.

(** [a + b] *)
Definition add (a b : number) : number :=
  match a, b with
  | Fin x, Fin y => Fin (x + y)
  | NaN, _ | _, NaN => NaN
  | PInf, NInf | NInf, PInf => NaN
  | PInf, _ | _, PInf => PInf
  | NInf, _ | _, NInf => NInf
  end.

(** [a > b]; any comparison with NaN is false. *)
Definition gtb (a b : number) : bool :=
  match a, b with
  | Fin x, Fin y => x >? y
  | NaN, _ | _, NaN => false
  | PInf, PInf => false
  | PInf, _ => true
  | _, PInf => false
  | NInf, _ => false
  | Fin _, NInf => true
  end.

(** [Math.floor(a / b)] for integers [a] and [b]: the quotient of the
    division by zero is an infinity, or NaN for [0 / 0].  The quotient
    is that of the integers, which is what the division of the two
    doubles rounds down to as long as [|a| + |b| <= 2^53]
    (see [Float64.floor_quotient]). *)
Definition Math_floor_div (a b : Z) : number :=
  if b =? 0 then
    if a >? 0 then PInf else if a <? 0 then NInf else NaN
  else Fin (a / b).

End Number.

(** ** binary64 arithmetic for [Math.round(0.6 * n)] *)

Module Float64.

Definition prec : Z := 53.
Definition emax : Z := 1024.

(** The double nearest to an integer. *)
Definition of_Z (n : Z) : spec_float := binary_normalize prec emax n 0 false.

(** The literal [0.6]: the double nearest to 6/10. *)
Definition lit_0_6 : spec_float := SFdiv prec emax (of_Z 6) (of_Z 10).

Definition mul : spec_float -> spec_float -> spec_float := SFmul prec emax.

(** [Math.round(x)]: the integer nearest to [x], a tie going up, that is
    [floor(x + 1/2)] computed exactly.  [Math.round] returns an infinity
    or NaN unchanged; no integer stands for those, and the product
    [0.6 * n] is finite for every [n] below 2^1023 in absolute value,
    far beyond any value of an editor option, so they are sent to 0. *)
Definition Math_round (x : spec_float) : Z :=
  match x with
  | S754_zero _ => 0
  | S754_finite s m e =>
      let v := if s then Z.neg m else Z.pos m in
      if 0 <=? e then v * 2 ^ e
      else (2 * v + 2 ^ (- e)) / 2 ^ (- e + 1)
  | S754_infinity _ | S754_nan => 0
  end.

(** [Math.round(0.6 * n)] *)
Definition round_0_6 (n : Z) : Z := Math_round (mul lit_0_6 (of_Z n)).

(** [Math.floor(x)] *)
Definition Math_floor (x : spec_float) : number :=
  match x with
  | S754_zero _ => Fin 0
  | S754_finite s m e =>
      let v := if s then Z.neg m else Z.pos m in
      Fin (if 0 <=? e then v * 2 ^ e else v / 2 ^ (- e))
  | S754_infinity false => PInf
  | S754_infinity true => NInf
  | S754_nan => NaN
  end.

(** [Math.floor(a / b)] with the binary64 quotient of the doubles nearest
    to [a] and [b].  [Number.Math_floor_div] is the quotient of the
    integers; the two agree while [|a| + |b| <= 2^53] (a quotient that is
    not an integer is at least [1 / |b|] away from the next integer, more
    than half the distance between neighbouring doubles there), and part
    beyond that. *)
Definition floor_quotient (a b : Z) : number :=
  Math_floor (SFdiv prec emax (of_Z a) (of_Z b)).

End Float64.

(** ** The translation value ([../types]) *)

(** Modelled from the spec: the declaration of [Translation] in
    [src/types.ts] is not part of the sources at hand; section 3 of the
    specification gives an engine result the fields [engine], optional
    [phonetic] and [paraphrase], and the array [explain]. *)
Record EngineResult := {
  engine : jsstring;
  phonetic : option jsstring;
  paraphrase : option jsstring;
  explain : list jsstring
}.

(** Modelled from the spec: [Translation] is [{ text, results }]
    (section 3). *)
Record Translation := {
  text : jsstring;
  results : list EngineResult
}.

(** Truthiness of an optional string: [undefined] and the empty string
    are falsy. *)
Definition truthy (o : option jsstring) : bool :=
  match o with
  | Some (_ :: _) => true
  | _ => false
  end.

(** [`${o}`] in a template literal. *)
Definition interp (o : option jsstring) : jsstring :=
  match o with
  | Some s => s
  | None => lit "undefined"
  end.

(** ** The editor and the log of the calls made on it *)

Record Neovim := {
  (** the integer [parseInt] reads from the answer of [nvim.eval(expr)] *)
  eval : jsstring -> Z;
  (** the answer of [nvim.call(fn, arg)] *)
  call : jsstring -> jsstring -> Z
}.

(** [workspace.env] *)
Record Env := {
  floating : bool;
  textprop : bool
}.

(** [winConfig.get('maxWidth')] and [winConfig.get('maxHeight')] *)
Record WinConfig := {
  maxWidth : Z;
  maxHeight : Z
}.

Record Display := {
  nvim : Neovim;
  winConfig : WinConfig
}.

(** The calls a method makes: [nvim.eval], [nvim.call] with an answer,
    [pauseNotification], [nvim.call] and [nvim.command] as notifications,
    [resumeNotification], and the two helpers whose bodies are outside
    this file of the sources, [FloatFactory.create] of [./window] (with
    the arguments of the constructor and the one document) and
    [showMessage] of [../util]. *)
Inductive host_call :=
| Eval (expr : jsstring)
| Call (fn arg : jsstring)
| PauseNotification
| NotifyCall (fn : jsstring) (lines : list jsstring) (filetype : jsstring)
| NotifyCommand (cmd : jsstring)
| ResumeNotification
| FloatCreate (modal : bool) (height : number) (width : Z)
    (content filetype : jsstring)
| ShowMessage (msg : jsstring).

(** The monad of the async methods: the calls made so far, and how the
    method completed. *)
Definition M (A : Type) : Type := list host_call * completion A.

Definition ret {A} (a : A) : M A := ([], Normal a).

Definition bind {A B} (m : M A) (k : A -> M B) : M B :=
  match m with
  | (log, Throw e) => (log, Throw e)
  | (log, Normal a) => let '(log', r) := k a in (log ++ log', r)
  end.

Notation "'let*' x ':=' c 'in' k" := (bind c (fun x => k))
  (at level 10, x pattern, c at level 100, k at level 200).

Definition host (c : host_call) : M unit := ([c], Normal tt).

Definition nvim_eval (nv : Neovim) (expr : jsstring) : M Z :=
  ([Eval expr], Normal (eval nv expr)).

Definition nvim_call (nv : Neovim) (fn arg : jsstring) : M Z :=
  ([Call fn arg], Normal (call nv fn arg)).

Definition log_of {A} (m : M A) : list host_call := fst m.
Definition outcome {A} (m : M A) : completion A := snd m.

(** ** [buildContent] *)

Definition engine_lines (t : EngineResult) : list jsstring :=
  [lit " "]
  ++ [lit "------ " ++ engine t ++ lit " ------"]
  ++ (if truthy (phonetic t)
      then [glyph_phonetic ++ lit " [" ++ interp (phonetic t) ++ lit "]"]
      else [])
  ++ (if truthy (paraphrase t)
      then [glyph_paraphrase ++ lit " " ++ interp (paraphrase t)]
      else [])
  ++ (if negb (length (explain t) =? 0)%nat
      then map (fun i => (glyph_explain ++ lit " ") ++ i) (explain t)
      else []).

Definition title_line (trans : Translation) : jsstring :=
  lit "@ " ++ text trans ++ lit " @".

Definition buildContent (trans : Translation) : list jsstring :=
  fold_left (fun content t => content ++ engine_lines t)
    (results trans) [title_line trans].

(** ** [winSize] *)

(** The body of the loop over the lines, on the running
    [(height, width)], once the display width of the line is known. *)
Definition winSize_step (maxWidth : Z) (st : number * Z) (line_width : Z)
  : number * Z :=
  let '(height, width) := st in
  if line_width >? maxWidth then
    (Number.add height
       (Number.add (Number.Math_floor_div line_width maxWidth) (Fin 1)),
     maxWidth)
  else
    (Number.add height (Fin 1), Z.max line_width width).

Fixpoint winSize_loop (nv : Neovim) (maxWidth : Z) (content : list jsstring)
    (st : number * Z) : M (number * Z) :=
  match content with
  | [] => ret st
  | line :: rest =>
      let* w := nvim_call nv (lit "strdisplaywidth") line in
      let line_width := w + 2 in
      winSize_loop nv maxWidth rest (winSize_step maxWidth st line_width)
  end.

(** A configured size, or 60% of the editor option when it is 0. *)
Definition resolve (nv : Neovim) (configured : Z) (option_name : jsstring)
  : M Z :=
  if configured =? 0 then
    let* n := nvim_eval nv option_name in
    ret (Float64.round_0_6 n)
  else ret configured.

Definition clamp_height (height : number) (maxHeight : Z) : number :=
  if Number.gtb height (Fin maxHeight) then Fin maxHeight else height.

Definition winSize (d : Display) (content : list jsstring) : M (number * Z) :=
  let* maxWidth := resolve (nvim d) (maxWidth (winConfig d)) (lit "&columns") in
  let* maxHeight := resolve (nvim d) (maxHeight (winConfig d)) (lit "&lines") in
  let* (height, width) :=
    winSize_loop (nvim d) maxWidth content (Fin 0, 0) in
  ret (clamp_height height maxHeight, width).

(** ** The centering pass of [popup] *)

(** The local array [content] is updated in place; a throw leaves it as
    it was at that moment. *)
Definition S (A : Type) : Type := list jsstring -> list jsstring * completion A.

Definition sret {A} (a : A) : S A := fun arr => (arr, Normal a).

Definition sbind {A B} (m : S A) (k : A -> S B) : S B :=
  fun arr =>
    match m arr with
    | (arr', Throw e) => (arr', Throw e)
    | (arr', Normal a) => k a arr'
    end.

Notation "'let+' x ':=' c 'in' k" := (sbind c (fun x => k))
  (at level 10, x pattern, c at level 100, k at level 200).

(** [content[i]] read for a method call: [undefined] has no method. *)
Definition arr_get (i : nat) : S jsstring :=
  fun arr =>
    match arr !! i with
    | Some line => (arr, Normal line)
    | None => (arr, Throw TypeError)
    end.

(** [content[i] = v] for an index of the array. *)
Definition arr_set (i : nat) (v : jsstring) : S unit :=
  fun arr => (<[i := v]> arr, Normal tt).

Definition lift {A} (c : completion A) : S A := fun arr => (arr, c).

Definition center_at (width : Z) (i : nat) : S unit :=
  let+ line := arr_get i in
  if startsWith line (lit "---") && (width >? len line) then
    let padding := (width - len line) / 2 in
    let+ l := lift (String_repeat (lit "-") padding) in
    let+ r := lift (String_repeat (lit "-") padding) in
    let+ _ := arr_set i (l ++ line ++ r) in
    let+ extra := lift (String_repeat (lit "-") (Z.rem (width - len line) 2)) in
    let+ cur := arr_get i in
    arr_set i (cur ++ extra)
  else if startsWith line (lit "@") then
    let padding := (width - len line) / 2 in
    let+ l := lift (String_repeat (lit " ") padding) in
    arr_set i (l ++ line)
  else sret tt.

(** [Object.keys(content)]: the indices of the array, in ascending order. *)
Definition Object_keys (content : list jsstring) : list nat :=
  seq 0 (length content).

Fixpoint center_loop (width : Z) (keys : list nat) : S unit :=
  match keys with
  | [] => sret tt
  | i :: rest => let+ _ := center_at width i in center_loop width rest
  end.

Definition center_pass (width : Z) (content : list jsstring)
  : list jsstring * completion unit :=
  center_loop width (Object_keys content) content.

(** ** [popup] *)

Definition render (nv : Neovim) (env : Env) (height : number) (width : Z)
    (content : list jsstring) : M unit :=
  if floating env || textprop env then
    host (FloatCreate false height (width + 2)
            (join newline content)
            (lit "translation"))
  else
    let* _ := host PauseNotification in
    let* _ := host (NotifyCall (lit "coc#util#preview_info") content
                      (lit "translation")) in
    let* _ := host (NotifyCommand (lit "redraw")) in
    host ResumeNotification.

(** The method, together with the local array [content] as the method
    leaves it. *)
Definition popup_cycle (d : Display) (env : Env) (trans : Translation)
  : list jsstring * M unit :=
  let content := buildContent trans in
  if (length content =? 0)%nat then (content, ret tt)
  else
    match winSize d content with
    | (log, Throw e) => (content, (log, Throw e))
    | (log, Normal (height, width)) =>
        match center_pass width content with
        | (content', Throw e) => (content', (log, Throw e))
        | (content', Normal _) =>
            (content',
             let* _ := (log, Normal tt) in
             render (nvim d) env height width content')
        end
    end.

Definition popup (d : Display) (env : Env) (trans : Translation) : M unit :=
  snd (popup_cycle d env trans).

(** ** [echo] *)

Record echo_state := {
  hasPhonetic : bool;
  hasParaphrase : bool;
  hasExplain : bool;
  fragments : list jsstring
}.

Definition echo_step (st : echo_state) (t : EngineResult) : echo_state :=
  let st1 :=
    if truthy (phonetic t) && negb (hasPhonetic st) then
      {| hasPhonetic := true; hasParaphrase := hasParaphrase st;
         hasExplain := hasExplain st;
         fragments := fragments st
                      ++ [lit "[" ++ interp (phonetic t) ++ lit "]"] |}
    else st in
  let st2 :=
    if truthy (paraphrase t) && negb (hasParaphrase st1) then
      {| hasPhonetic := hasPhonetic st1; hasParaphrase := true;
         hasExplain := hasExplain st1;
         fragments := fragments st1 ++ [interp (paraphrase t)] |}
    else st1 in
  if negb (length (explain t) =? 0)%nat && negb (hasExplain st2) then
    {| hasPhonetic := hasPhonetic st2; hasParaphrase := hasParaphrase st2;
       hasExplain := true;
       fragments := fragments st2 ++ [join (lit "; ") (explain t)] |}
  else st2.

Definition echo_init : echo_state :=
  {| hasPhonetic := false; hasParaphrase := false; hasExplain := false;
     fragments := [] |}.

Definition echo_message (trans : Translation) : jsstring :=
  let content := fragments (fold_left echo_step (results trans) echo_init) in
  text trans ++ lit " ==> " ++ join (lit " ") content.

Definition echo (trans : Translation) : M unit :=
  host (ShowMessage (echo_message trans)).

(** ** [replace] *)

Fixpoint replace_loop (results : list EngineResult) : M unit :=
  match results with
  | [] => host (ShowMessage (lit "No paraphrase for replacement"))
  | t :: rest =>
      if truthy (paraphrase t) then
        let* _ := host PauseNotification in
        let* _ := host (NotifyCommand (lit "let reg_tmp=@a")) in
        let* _ := host (NotifyCommand
                          (lit "let @a='" ++ interp (paraphrase t) ++ lit "'")) in
        let* _ := host (NotifyCommand (lit "normal! viw" ++ dquote ++ lit "ap")) in
        let* _ := host (NotifyCommand (lit "let @a=reg_tmp")) in
        host ResumeNotification
      else replace_loop rest
  end.

Definition replace (trans : Translation) : M unit :=
  replace_loop (results trans).

(** * Definitions for the statements

    The methods above thread a log and an array through their loops.  The
    definitions below give the same results without the threading (the
    lemmas of the next part prove that they agree), and name the notions
    the statements use. *)

(** Boolean comparisons on [Z] in the hypotheses, as propositions. *)
Ltac zbool :=
  repeat match goal with
  | H : (_ >? _) = true |- _ => rewrite Z.gtb_ltb in H; apply Z.ltb_lt in H
  | H : (_ >? _) = false |- _ => rewrite Z.gtb_ltb in H; apply Z.ltb_ge in H
  | H : (_ <? _) = true |- _ => apply Z.ltb_lt in H
  | H : (_ <? _) = false |- _ => apply Z.ltb_ge in H
  | H : (_ <=? _) = true |- _ => apply Z.leb_le in H
  | H : (_ <=? _) = false |- _ => apply Z.leb_gt in H
  | H : (_ =? _) = true |- _ => apply Z.eqb_eq in H
  | H : (_ =? _) = false |- _ => apply Z.eqb_neq in H
  end.

(** ** [winSize] without the log *)

(** The running sizes after the lines of [content]. *)
Definition winSize_fold (nv : Neovim) (maxWidth : Z) (content : list jsstring)
    (st : number * Z) : number * Z :=
  fold_left
    (fun st line =>
       winSize_step maxWidth st (call nv (lit "strdisplaywidth") line + 2))
    content st.

Definition width_queries (content : list jsstring) : list host_call :=
  map (Call (lit "strdisplaywidth")) content.

(** The running height is an integer or plus infinity. *)
Definition height_ok (h : number) : Prop :=
  match h with
  | Fin _ | PInf => True
  | NInf | NaN => False
  end.

(** The sizes [winSize] works with, after the sentinel 0 is resolved. *)
Definition resolved (nv : Neovim) (configured : Z) (option_name : jsstring)
  : Z :=
  if configured =? 0 then Float64.round_0_6 (eval nv option_name)
  else configured.

Definition resolved_maxWidth (d : Display) : Z :=
  resolved (nvim d) (maxWidth (winConfig d)) (lit "&columns").

Definition resolved_maxHeight (d : Display) : Z :=
  resolved (nvim d) (maxHeight (winConfig d)) (lit "&lines").

Definition resolve_queries (configured : Z) (option_name : jsstring)
  : list host_call :=
  if configured =? 0 then [Eval option_name] else [].

(** ** The centering pass as a function of the lines *)

(** What [center_at] stores at an index that holds [line], or the
    exception it throws. *)
Definition center_line (width : Z) (line : jsstring) : completion jsstring :=
  if startsWith line (lit "---") && (width >? len line) then
    match String_repeat (lit "-") ((width - len line) / 2),
          String_repeat (lit "-") (Z.rem (width - len line) 2) with
    | Normal p, Normal extra => Normal ((p ++ line ++ p) ++ extra)
    | Throw e, _ | _, Throw e => Throw e
    end
  else if startsWith line (lit "@") then
    match String_repeat (lit " ") ((width - len line) / 2) with
    | Normal p => Normal (p ++ line)
    | Throw e => Throw e
    end
  else Normal line.

(** The whole pass: lines are rewritten from the first on, up to a throw. *)
Fixpoint center_lines (width : Z) (content : list jsstring)
  : list jsstring * completion unit :=
  match content with
  | [] => ([], Normal tt)
  | line :: rest =>
      match center_line width line with
      | Throw e => (line :: rest, Throw e)
      | Normal line' =>
          let '(rest', c) := center_lines width rest in (line' :: rest', c)
      end
  end.

(** The fillers are the dash of the dividers and the space of the title. *)
Definition dash : N := 45%N.
Definition space : N := 32%N.

Definition filler (c : N) : Prop := c = dash \/ c = space.

(** [line'] is [line] with fillers added before and after it. *)
Definition padded (line line' : jsstring) : Prop :=
  exists l r, line' = l ++ line ++ r /\ Forall filler l /\ Forall filler r.

(** ** The sizes and the queries of [popup] *)

(** The width [winSize] returns for the built content. *)
Definition popup_width (d : Display) (trans : Translation) : Z :=
  snd (winSize_fold (nvim d) (resolved_maxWidth d) (buildContent trans)
         (Fin 0, 0)).

Definition popup_height (d : Display) (trans : Translation) : number :=
  clamp_height
    (fst (winSize_fold (nvim d) (resolved_maxWidth d) (buildContent trans)
            (Fin 0, 0)))
    (resolved_maxHeight d).

Definition winSize_queries (d : Display) (content : list jsstring)
  : list host_call :=
  resolve_queries (maxWidth (winConfig d)) (lit "&columns")
  ++ resolve_queries (maxHeight (winConfig d)) (lit "&lines")
  ++ width_queries content.

(** ** The fragments of [echo] and the batch of [replace] *)

Definition has_phonetic (t : EngineResult) : bool := truthy (phonetic t).
Definition has_paraphrase (t : EngineResult) : bool := truthy (paraphrase t).
Definition has_explain (t : EngineResult) : bool :=
  negb (length (explain t) =? 0)%nat.

(** No engine of [pre] has the field. *)
Definition none_before (field : EngineResult -> bool)
    (pre : list EngineResult) : bool :=
  forallb (fun u => negb (field u)) pre.

(** The fragments in the order of the scan: engine by engine, and for
    one engine in the order phonetic, paraphrase, explain, each taken
    only from the first engine that has the field; [pre] are the engines
    already passed. *)
Fixpoint echo_fragments_by_engine (pre rest : list EngineResult)
  : list jsstring :=
  match rest with
  | [] => []
  | t :: rest' =>
      (if has_phonetic t && none_before has_phonetic pre
       then [lit "[" ++ interp (phonetic t) ++ lit "]"] else [])
      ++ (if has_paraphrase t && none_before has_paraphrase pre
          then [interp (paraphrase t)] else [])
      ++ (if has_explain t && none_before has_explain pre
          then [join (lit "; ") (explain t)] else [])
      ++ echo_fragments_by_engine (pre ++ [t]) rest'
  end.

(** The flags of the loop say whether an engine passed had the field. *)
Definition echo_flags_track (st : echo_state) (pre : list EngineResult)
  : Prop :=
  hasPhonetic st = negb (none_before has_phonetic pre)
  /\ hasParaphrase st = negb (none_before has_paraphrase pre)
  /\ hasExplain st = negb (none_before has_explain pre).

(** The batch of [replace] for the paraphrase [p]. *)
Definition replace_batch (p : jsstring) : list host_call :=
  [PauseNotification;
   NotifyCommand (lit "let reg_tmp=@a");
   NotifyCommand (lit "let @a='" ++ p ++ lit "'");
   NotifyCommand (lit "normal! viw" ++ dquote ++ lit "ap");
   NotifyCommand (lit "let @a=reg_tmp");
   ResumeNotification].

(** ** Further notions: the lines of one engine, the widths of the lines *)


(** The number of lines an engine adds to the content. *)
Definition engine_line_count (t : EngineResult) : nat :=
  2 + Nat.b2n (truthy (phonetic t)) + Nat.b2n (truthy (paraphrase t))
  + length (explain t).


(** [strdisplaywidth(line) + 2] for each line. *)
Definition line_widths (nv : Neovim) (content : list jsstring) : list Z :=
  map (fun line => call nv (lit "strdisplaywidth") line + 2) content.

(** The calls of [render], for the two kinds of editor. *)
Definition render_calls (env : Env) (height : number) (width : Z)
    (lines : list jsstring) : list host_call :=
  if floating env || textprop env then
    [FloatCreate false height (width + 2) (join newline lines)
       (lit "translation")]
  else
    [PauseNotification;
     NotifyCall (lit "coc#util#preview_info") lines (lit "translation");
     NotifyCommand (lit "redraw");
     ResumeNotification].

(** ** Vim's reading of a string in single quotes *)

(** The editor is not part of the sources; [replace] hands it the text
    [let @a='...'], and what that assigns is Vim's to say.  Vim's manual
    (literal-string) has a string in single quotes taken as it is, no
    character being special, except that two quotes stand for one; so
    the string ends at the first quote that is not doubled. *)
Module Vim.

Definition apostrophe : N := 39%N.

(** After the opening quote: the value of the string and the text left
    after its closing quote, if it is closed. *)
Fixpoint literal_string_body (s : jsstring) : option (jsstring * jsstring) :=
  match s with
  | [] => None
  | c :: s' =>
      if N.eqb c apostrophe then
        match s' with
        | c' :: s'' =>
            if N.eqb c' apostrophe then
              match literal_string_body s'' with
              | Some (v, rest) => Some (apostrophe :: v, rest)
              | None => None
              end
            else Some ([], s')
        | [] => Some ([], [])
        end
      else
        match literal_string_body s' with
        | Some (v, rest) => Some (c :: v, rest)
        | None => None
        end
  end.

Definition literal_string (s : jsstring) : option (jsstring * jsstring) :=
  match s with
  | c :: s' => if N.eqb c apostrophe then literal_string_body s' else None
  | [] => None
  end.

End Vim.

(** ** Concrete editors and translations *)

Module Examples.

(** An editor with the given [&columns] and [&lines], in which every
    code unit is one cell wide. *)
Definition editor (columns lines : Z) : Neovim :=
  {| eval := fun expr =>
       if bool_decide (expr = lit "&columns") then columns else lines;
     call := fun _ arg => len arg |}.

Definition sized (columns lines maxWidth maxHeight : Z) : Display :=
  {| nvim := editor columns lines;
     winConfig := {| maxWidth := maxWidth; maxHeight := maxHeight |} |}.

Definition with_float : Env := {| floating := true; textprop := false |}.
Definition without_float : Env := {| floating := false; textprop := false |}.

(** No engine answered. *)
Definition no_results : Translation :=
  {| text := lit "hi"; results := [] |}.

(** A text of fifty letters, and no engine answered. *)
Definition long_text : Translation :=
  {| text := replicate 50 97%N; results := [] |}.

(** The two engines of the example of [echo]. *)
Definition engine_A : EngineResult :=
  {| engine := lit "first"; phonetic := None;
     paraphrase := Some (lit "A"); explain := [] |}.
Definition engine_B : EngineResult :=
  {| engine := lit "second"; phonetic := Some (lit "/b/");
     paraphrase := Some (lit "B"); explain := [] |}.
Definition two_engines (txt : jsstring) : Translation :=
  {| text := txt; results := [engine_A; engine_B] |}.

(** An engine without a paraphrase, then one with the paraphrase
    [hello]. *)
Definition engine_none : EngineResult :=
  {| engine := lit "first"; phonetic := None; paraphrase := None;
     explain := [] |}.

Definition no_paraphrase : Translation :=
  {| text := lit "hi"; results := [engine_none; engine_none] |}.

(** A paraphrase with an apostrophe. *)
Definition engine_eau : EngineResult :=
  {| engine := lit "google"; phonetic := None;
     paraphrase := Some (lit "l'eau"); explain := [] |}.
Definition water : Translation :=
  {| text := lit "water"; results := [engine_eau] |}.

(** One engine with every field, and a translation of a short word. *)
Definition engine_full : EngineResult :=
  {| engine := lit "bing"; phonetic := Some (lit "he'lo");
     paraphrase := Some (lit "hola"); explain := [lit "n. greeting"; lit "v. greet"] |}.
Definition short_word : Translation :=
  {| text := lit "hello"; results := [engine_full; engine_A] |}.

End Examples.

(** * The documentation generator ([scripts/gendoc.ts])

    The part of [DocGenerator] that works on text: [printAsDetails] and
    [attach], and [CommandDocGenerator.generate].  Values of
    [JSONSchema7Type] and [JSON.stringify] belong to the runtime and are
    parameters ([json], [printJson]); so is the package manifest.
    [ConfigurationDocGenerator.generate] walks the syntax tree of the
    TypeScript compiler and is not modelled: [attach] takes the sections
    [generate] returns. *)

Module Gendoc.

Section WithJson.

Variable json : Type.

(** [this.printJson(obj, format)], that is
    [JSON.stringify(obj, undefined, format ? '  ' : undefined)]. *)
Variable printJson : json -> bool -> jsstring.

Record Row := {
  name : jsstring;
  description : jsstring;
  type : option jsstring;
  default : option json
}.

Record DocSection := {
  title : option jsstring;
  rows : list Row
}.

Record Cmd := {
  cmd_title : jsstring;
  command : jsstring
}.

Definition ignorePrettierStart : jsstring :=
  lit "<!-- prettier-ignore-start -->".
Definition ignorePrettierEnd : jsstring :=
  lit "<!-- prettier-ignore-end -->".
Definition hint (generateCommand : jsstring) : jsstring :=
  lit "<!-- Generated by '" ++ generateCommand
  ++ lit "', please don't edit it directly -->".

(** The string [hideLine] of [printAsDetails] for one row. *)
Definition hideLine_of (row : Row) : jsstring :=
  let hideLine := [] in
  let hideLine :=
    if truthy (type row) then
      hideLine ++ (lit "Type: <pre><code>" ++ interp (type row)
                   ++ lit "</code></pre>")
    else hideLine in
  match default row with
  | Some v =>
      (hideLine ++ lit "Default: ")
      ++ ((lit "<pre><code>" ++ printJson v true) ++ lit "</code></pre>")
  | None => hideLine
  end.

Definition summary_of (row : Row) : jsstring :=
  lit "<summary><code>" ++ name row ++ lit "</code>: " ++ description row
  ++ lit ".</summary>".

(** The lines one row adds; a non-empty string is truthy. *)
Definition details_step (lines : list jsstring) (row : Row)
  : list jsstring :=
  let hideLine := hideLine_of row in
  let lines :=
    if negb (length hideLine =? 0)%nat then lines ++ [lit "<details>"]
    else lines in
  let lines := lines ++ [summary_of row] in
  if negb (length hideLine =? 0)%nat then
    (lines ++ [hideLine]) ++ [lit "</details>"]
  else lines.

Definition printAsDetails (rows : list Row) : list jsstring :=
  fold_left details_step rows [].

(** [CommandDocGenerator.generate], for the commands of the manifest. *)
Definition generate_commands (cmds : list Cmd) : list DocSection :=
  [{| title := None;
      rows := fold_left
                (fun rows cmd =>
                   rows ++ [{| name := command cmd;
                               description := cmd_title cmd;
                               type := None; default := None |}])
                cmds [] |}].

(** ** The two regular expressions of [attach] *)

Definition hash : N := 35%N.

(** The class [\s] on code units. *)
Definition is_space (c : N) : bool :=
  ((9 <=? c) && (c <=? 13) || (c =? 32) || (c =? 160) || (c =? 0x1680)
   || (0x2000 <=? c) && (c <=? 0x200a) || (c =? 0x2028) || (c =? 0x2029)
   || (c =? 0x202f) || (c =? 0x205f) || (c =? 0x3000) || (c =? 0xfeff))%N.

(** [test] without anchors: the pattern matches at some position. *)
Fixpoint at_some_position (here : jsstring -> bool) (s : jsstring) : bool :=
  here s
  || match s with
     | [] => false
     | _ :: s' => at_some_position here s'
     end.

(** [n] times [#] at the start of [s]: what follows them. *)
Fixpoint strip_hashes (n : nat) (s : jsstring) : option jsstring :=
  match n with
  | O => Some s
  | Datatypes.S n' =>
      match s with
      | c :: s' => if N.eqb c hash then strip_hashes n' s' else None
      | [] => None
      end
  end.

(** [\s*] and then the title, at the start of [s]; the final [\s*]
    matches the empty string. *)
Fixpoint spaces_then (attachTitle s : jsstring) : bool :=
  startsWith s attachTitle
  || match s with
     | c :: s' => is_space c && spaces_then attachTitle s'
     | [] => false
     end.

(** The characters that stand for something else than themselves in
    the source of a pattern. *)
Definition is_syntax_character (c : N) : bool :=
  existsb (N.eqb c) (lit "^$\.*+?()[]{}|").

(** The title has none of them: as the source of a pattern it matches
    itself and nothing else.  So are the titles [Commands] and
    [Configuration] of [main]. *)
Definition literal_title (attachTitle : jsstring) : bool :=
  forallb (fun c => negb (is_syntax_character c)) attachTitle.

(** [new RegExp('#'.repeat(headLevel) + '\\s*' + attachTitle + '\\s*')
    .test(line)] for a title with [literal_title]; the title of any other
    form is a pattern of its own, which this does not follow, and the
    statements about [attach] take [literal_title] as a hypothesis. *)
Definition test_title (headLevel : nat) (attachTitle line : jsstring)
  : bool :=
  at_some_position
    (fun s =>
       match strip_hashes headLevel s with
       | Some rest => spaces_then attachTitle rest
       | None => false
       end)
    line.

(** At most [n] times [#] and then a code unit that is not [#]. *)
Fixpoint hashes_then_other (n : nat) (s : jsstring) : bool :=
  match s with
  | [] => false
  | c :: s' =>
      if N.eqb c hash then
        match n with
        | O => false
        | Datatypes.S n' => hashes_then_other n' s'
        end
      else true
  end.

(** [new RegExp(`#{1,${headLevel}}[^#]`).test(line)] for a level of at
    least 1. *)
Definition test_heading (headLevel : nat) (line : jsstring) : bool :=
  at_some_position
    (fun s =>
       match s, headLevel with
       | c :: s', Datatypes.S n => N.eqb c hash && hashes_then_other n s'
       | _, _ => false
       end)
    line.

(** ** [attach] *)

(** [s.split('\n')] *)
Fixpoint split_lines (s : jsstring) : list jsstring :=
  match s with
  | [] => [[]]
  | c :: s' =>
      if N.eqb c 10 then [] :: split_lines s'
      else
        match split_lines s' with
        | line :: lines => (c :: line) :: lines
        | [] => [[c]]
        end
  end.

(** [arr.findIndex(test)]: [None] stands for -1. *)
Fixpoint findIndex {A} (test : A -> bool) (arr : list A) : option nat :=
  match arr with
  | [] => None
  | x :: rest => if test x then Some O else Datatypes.S <$> findIndex test rest
  end.

(** [arr.splice(start, deleteCount, ...items)] for [start] within the
    array: the array afterwards. *)
Definition splice {A} (arr : list A) (start deleteCount : nat)
    (items : list A) : list A :=
  take start arr ++ items ++ drop (start + deleteCount) arr.

(** The lines [attach] puts under the header. *)
Definition generated_lines (generateCommand : jsstring)
    (sections : list DocSection) : list jsstring :=
  let lines :=
    fold_left
      (fun lines section =>
         let lines :=
           if truthy (title section) then
             lines ++ [lit "<strong>" ++ interp (title section)
                       ++ lit "</strong>"]
           else lines in
         lines ++ printAsDetails (rows section))
      sections
      [[]; hint generateCommand; ignorePrettierStart] in
  ((lines ++ [[]]) ++ [ignorePrettierEnd]) ++ [[]].

Inductive io_call :=
| ReadFile (path : jsstring)
| Generate
| ConsoleLog (s : jsstring)
| WriteFile (path content : jsstring).

(** How [attach] completes: the pattern [#{1,0}] is a syntax error. *)
Inductive attached := Done | SyntaxError.

(** [attach], for a heading level that is a natural number, given the
    content of the file at [markdownPath] and the sections [generate]
    returns. *)
Definition attach (generateCommand : jsstring) (sections : list DocSection)
    (headLevel : nat) (attachTitle markdownPath markdown : jsstring)
  : list io_call * attached :=
  let markdownLines := split_lines markdown in
  match findIndex (test_title headLevel attachTitle) markdownLines with
  | None => ([ReadFile markdownPath], Done)
  | Some i =>
      let startIndex := Datatypes.S i in
      let below := drop startIndex markdownLines in
      match headLevel, below with
      | O, _ :: _ => ([ReadFile markdownPath], SyntaxError)
      | _, _ =>
          let endIndex := findIndex (test_heading headLevel) below in
          let removeCount :=
            match endIndex with
            | None => O
            | Some e => e
            end in
          let lines := generated_lines generateCommand sections in
          let markdownLines :=
            splice markdownLines startIndex removeCount lines in
          ([ReadFile markdownPath;
            Generate;
            ConsoleLog (join newline markdownLines);
            WriteFile markdownPath (join newline markdownLines);
            ConsoleLog (lit "Attached to " ++ attachTitle ++ lit " header")],
           Done)
      end
  end.

(** The text [attach] writes, if it writes. *)
Definition written (log : list io_call) : option jsstring :=
  match log with
  | [_; _; _; WriteFile _ content; _] => Some content
  | _ => None
  end.

(** ** Notions for the statements *)

(** The row has a non-empty type or a default. *)
Definition has_details (row : Row) : bool :=
  truthy (type row)
  || match default row with
     | Some _ => true
     | None => false
     end.

(** The lines of one row: the summary alone, or a details block. *)
Definition details_block (row : Row) : list jsstring :=
  if has_details row then
    [lit "<details>"; summary_of row; hideLine_of row; lit "</details>"]
  else [summary_of row].

(** The line has a [#] with a code unit other than [#] right after it. *)
Definition hash_then_other (line : jsstring) : Prop :=
  exists pre c post, line = pre ++ hash :: c :: post /\ c <> hash.

End WithJson.

Arguments name {json} _.
Arguments description {json} _.
Arguments type {json} _.
Arguments default {json} _.
Arguments title {json} _.
Arguments rows {json} _.
Arguments Build_Row {json} _ _ _ _.
Arguments Build_DocSection {json} _ _.

End Gendoc.

(** ** A README and two rows *)

Module GendocExamples.

Definition printJson (v : Z) (format : bool) : jsstring :=
  if bool_decide (v = 0) then lit "0" else lit "1".

Definition row_width : Gendoc.Row Z :=
  Gendoc.Build_Row (lit "translator.window.maxWidth")
    (lit "Max width of the window") (Some (lit "number")) (Some 0).

Definition row_bare : Gendoc.Row Z :=
  Gendoc.Build_Row (lit "translator.popup") (lit "Show in a window")
    None None.

Definition sections : list (Gendoc.DocSection Z) :=
  [Gendoc.Build_DocSection (Some (lit "Properties")) [row_width; row_bare]].

Definition readme_lines : list jsstring :=
  [lit "# coc-translator"; lit "## Configuration"; lit "old text";
   lit "## License"; lit "MIT"].

Definition readme : jsstring := join newline readme_lines.

(** The same README with the configuration as its last section. *)
Definition readme_last : jsstring :=
  join newline [lit "# coc-translator"; lit "## Configuration"; lit "old text"].

End GendocExamples.

(** * Properties *)

(** ** The monad *)

Lemma bind_normal {A B} (log : list host_call) (a : A) (k : A -> M B) :
  bind (log, Normal a) k = (log ++ fst (k a), snd (k a)).
Proof. unfold bind. destruct (k a); reflexivity. Qed.

(** ** [buildContent] *)

Lemma buildContent_fold (rs : list EngineResult) (acc : list jsstring) :
  fold_left (fun content t => content ++ engine_lines t) rs acc
  = acc ++ concat (map engine_lines rs).
Proof.
  revert acc. induction rs as [|t rs IH]; intros acc; simpl.
  - by rewrite app_nil_r.
  - rewrite IH. by rewrite <- app_assoc.
Qed.

Lemma buildContent_cons (trans : Translation) :
  buildContent trans
  = title_line trans :: concat (map engine_lines (results trans)).
Proof. unfold buildContent. by rewrite buildContent_fold. Qed.

Lemma buildContent_guard (trans : Translation) :
  (length (buildContent trans) =? 0)%nat = false.
Proof. by rewrite buildContent_cons. Qed.

(** ** [winSize] *)

Lemma winSize_loop_eq nv mw content st :
  winSize_loop nv mw content st
  = (width_queries content, Normal (winSize_fold nv mw content st)).
Proof.
  revert st. induction content as [|line rest IH]; intros st.
  - reflexivity.
  - cbn [winSize_loop]. unfold nvim_call. rewrite bind_normal, IH.
    reflexivity.
Qed.

Lemma winSize_fold_app nv mw pre post st :
  winSize_fold nv mw (pre ++ post) st
  = winSize_fold nv mw post (winSize_fold nv mw pre st).
Proof. unfold winSize_fold. by rewrite fold_left_app. Qed.

Lemma winSize_fold_cons nv mw line rest st :
  winSize_fold nv mw (line :: rest) st
  = winSize_fold nv mw rest
      (winSize_step mw st (call nv (lit "strdisplaywidth") line + 2)).
Proof. reflexivity. Qed.

(** Once the width is [maxWidth] it stays there. *)
Lemma winSize_step_width_stays mw h lw :
  snd (winSize_step mw (h, mw) lw) = mw.
Proof.
  unfold winSize_step. destruct (lw >? mw) eqn:E; simpl; [done|].
  zbool. lia.
Qed.

Lemma winSize_fold_width_stays nv mw content h :
  snd (winSize_fold nv mw content (h, mw)) = mw.
Proof.
  revert h. induction content as [|line rest IH]; intros h; [done|].
  rewrite winSize_fold_cons.
  destruct (winSize_step mw (h, mw) _) as [h' w'] eqn:E.
  assert (w' = mw) as ->.
  { change w' with (snd (h', w')). rewrite <- E.
    apply winSize_step_width_stays. }
  apply IH.
Qed.

(** The running width never passes a non-negative [maxWidth]. *)
Lemma winSize_fold_width_le nv mw content h w :
  w <= mw -> snd (winSize_fold nv mw content (h, w)) <= mw.
Proof.
  revert h w. induction content as [|line rest IH]; intros h w Hw; [done|].
  rewrite winSize_fold_cons. unfold winSize_step.
  destruct (_ >? mw) eqn:E.
  - apply IH. lia.
  - apply IH. zbool. lia.
Qed.

Lemma winSize_step_height_ok mw h w lw :
  height_ok h -> height_ok (fst (winSize_step mw (h, w) lw)).
Proof.
  unfold winSize_step, Number.Math_floor_div.
  destruct (lw >? mw) eqn:E; simpl.
  - destruct (mw =? 0) eqn:E0.
    + zbool. subst mw. assert ((lw >? 0) = true) as -> by lia.
      by destruct h.
    + by destruct h.
  - by destruct h.
Qed.

Lemma winSize_fold_height_ok nv mw content h w :
  height_ok h -> height_ok (fst (winSize_fold nv mw content (h, w))).
Proof.
  revert h w. induction content as [|line rest IH]; intros h w Hh; [done|].
  rewrite winSize_fold_cons.
  destruct (winSize_step mw (h, w) _) as [h' w'] eqn:E.
  apply IH. change h' with (fst (h', w')). rewrite <- E.
  by apply winSize_step_height_ok.
Qed.

Lemma clamp_height_le h mh :
  height_ok h -> exists z, clamp_height h mh = Fin z /\ z <= mh.
Proof.
  unfold clamp_height. destruct h as [z| | |]; simpl; try done.
  - intros _. destruct (z >? mh) eqn:E.
    + exists mh. split; [done|lia].
    + exists z. split; [done|]. zbool. lia.
  - intros _. exists mh. split; [done|lia].
Qed.

Lemma resolve_eq nv configured option_name :
  resolve nv configured option_name
  = (resolve_queries configured option_name,
     Normal (resolved nv configured option_name)).
Proof.
  unfold resolve, resolve_queries, resolved.
  destruct (configured =? 0); reflexivity.
Qed.

Lemma winSize_eq d content :
  winSize d content
  = (resolve_queries (maxWidth (winConfig d)) (lit "&columns")
     ++ resolve_queries (maxHeight (winConfig d)) (lit "&lines")
     ++ width_queries content,
     let st := winSize_fold (nvim d) (resolved_maxWidth d) content (Fin 0, 0) in
     Normal (clamp_height (fst st) (resolved_maxHeight d), snd st)).
Proof.
  unfold winSize.
  rewrite resolve_eq, bind_normal. cbv beta.
  rewrite resolve_eq, bind_normal. cbv beta.
  rewrite winSize_loop_eq, bind_normal. cbv beta.
  fold (resolved_maxWidth d) (resolved_maxHeight d).
  destruct (winSize_fold _ _ _ _) as [h w]. cbn [fst snd ret].
  by rewrite app_nil_r.
Qed.

(** ** The centering pass, line by line *)

Lemma String_repeat_nonneg s count :
  0 <= count ->
  String_repeat s count = Normal (concat (replicate (Z.to_nat count) s)).
Proof. intros H. unfold String_repeat. by destruct (Z.ltb_spec count 0); [lia|]. Qed.

Lemma center_at_eq width i content line :
  content !! i = Some line ->
  center_at width i content
  = match center_line width line with
    | Normal line' => (<[i := line']> content, Normal tt)
    | Throw e => (content, Throw e)
    end.
Proof.
  intros Hi. unfold center_at, center_line, sbind, arr_get, arr_set, lift, sret.
  rewrite Hi.
  destruct (startsWith line (lit "---") && (width >? len line)) eqn:Hdiv.
  - apply andb_true_iff in Hdiv as [_ Hw]. zbool.
    rewrite (String_repeat_nonneg _ ((width - len line) / 2))
      by (apply Z.div_pos; lia).
    rewrite (String_repeat_nonneg _ (Z.rem (width - len line) 2))
      by (apply Z.rem_nonneg; lia).
    rewrite list_lookup_insert_eq by (by eapply lookup_lt_Some).
    by rewrite list_insert_insert_eq.
  - destruct (startsWith line (lit "@")).
    + by destruct (String_repeat _ _).
    + by rewrite list_insert_id.
Qed.

Lemma center_loop_seq width todo done :
  center_loop width (seq (length done) (length todo)) (done ++ todo)
  = (done ++ fst (center_lines width todo), snd (center_lines width todo)).
Proof.
  revert done. induction todo as [|line rest IH]; intros done.
  - reflexivity.
  - cbn [length seq center_loop center_lines]. unfold sbind.
    rewrite (center_at_eq width _ _ line) by apply list_lookup_middle, eq_refl.
    destruct (center_line width line) as [line'|e]; [|done].
    replace (<[length done := line']> (done ++ line :: rest))
      with ((done ++ [line']) ++ rest).
    + specialize (IH (done ++ [line'])).
      rewrite length_app in IH. cbn [length] in IH.
      rewrite Nat.add_1_r in IH. rewrite IH.
      destruct (center_lines width rest) as [rest' c]. cbn [fst snd].
      by rewrite <- app_assoc.
    + rewrite <- app_assoc. cbn [app].
      rewrite insert_app_r_alt by lia. by rewrite Nat.sub_diag.
Qed.

Lemma center_pass_eq width content :
  center_pass width content = center_lines width content.
Proof.
  unfold center_pass, Object_keys.
  pose proof (center_loop_seq width content []) as H.
  cbn [app length] in H. rewrite H.
  by destruct (center_lines width content).
Qed.

Lemma padded_refl line : padded line line.
Proof. exists [], []. by rewrite app_nil_r. Qed.

Lemma concat_replicate_single (n : nat) (c : N) :
  concat (replicate n [c]) = replicate n c.
Proof. induction n as [|n IH]; [done|]. cbn. by rewrite IH. Qed.

Lemma startsWith_cons c p d s :
  startsWith (d :: s) (c :: p) = true -> c = d /\ startsWith s p = true.
Proof.
  cbn. intros H. apply andb_true_iff in H as [H1 H2].
  by apply N.eqb_eq in H1.
Qed.

Lemma divider_inv line :
  startsWith line (lit "---") = true ->
  exists s, line = dash :: dash :: dash :: s.
Proof.
  change (lit "---") with [dash; dash; dash].
  destruct line as [|c1 [|c2 [|c3 s]]]; cbn [startsWith]; intros H;
    repeat (apply andb_true_iff in H as [? H]); try discriminate H.
  repeat match goal with E : N.eqb _ _ = true |- _ => apply N.eqb_eq in E end.
  subst. by exists s.
Qed.

Lemma title_not_divider line :
  startsWith line (lit "@") = true -> startsWith line (lit "---") = false.
Proof.
  destruct line as [|d s]; [done|]. intros H.
  apply startsWith_cons in H as [<- _]. reflexivity.
Qed.

Lemma center_line_divider width line :
  startsWith line (lit "---") = true -> len line < width ->
  center_line width line
  = Normal (replicate (Z.to_nat ((width - len line) / 2)) dash
            ++ line
            ++ replicate (Z.to_nat ((width - len line) / 2)) dash
            ++ replicate (Z.to_nat (Z.rem (width - len line) 2)) dash).
Proof.
  intros Hs Hw. unfold center_line. rewrite Hs.
  assert ((width >? len line) = true) as -> by lia. cbn [andb].
  rewrite !String_repeat_nonneg
    by first [apply Z.div_pos; lia | apply Z.rem_nonneg; lia].
  cbn [lit]. rewrite !concat_replicate_single.
  by rewrite <- !app_assoc.
Qed.

Lemma center_line_title width line :
  startsWith line (lit "@") = true ->
  center_line width line
  = if (width - len line) / 2 <? 0 then Throw RangeError
    else Normal (replicate (Z.to_nat ((width - len line) / 2)) space ++ line).
Proof.
  intros Hs. unfold center_line.
  rewrite (title_not_divider _ Hs), Hs. cbn [andb].
  unfold String_repeat. destruct (_ <? 0); [done|].
  cbn [lit]. by rewrite concat_replicate_single.
Qed.

Lemma center_line_other width line :
  startsWith line (lit "---") && (width >? len line) = false ->
  startsWith line (lit "@") = false ->
  center_line width line = Normal line.
Proof. intros H1 H2. unfold center_line. by rewrite H1, H2. Qed.

Lemma center_line_padded width line line' :
  center_line width line = Normal line' -> padded line line'.
Proof.
  destruct (startsWith line (lit "---") && (width >? len line)) eqn:Hdiv.
  - apply andb_true_iff in Hdiv as [Hs Hw]. zbool.
    rewrite center_line_divider by done. intros [= <-].
    eexists _, _. split; [reflexivity|].
    split; [|apply Forall_app; split]; apply Forall_replicate; by left.
  - destruct (startsWith line (lit "@")) eqn:Ht.
    + rewrite center_line_title by done.
      destruct (_ <? 0); [done|]. intros [= <-].
      exists (replicate (Z.to_nat ((width - len line) / 2)) space), [].
      rewrite app_nil_r. split; [done|].
      split; [apply Forall_replicate; by right|done].
    + rewrite center_line_other by done. intros [= <-]. apply padded_refl.
Qed.

Lemma center_lines_padded width content :
  Forall2 padded content (fst (center_lines width content)).
Proof.
  induction content as [|line rest IH]; cbn [center_lines]; [constructor|].
  destruct (center_line width line) as [line'|e] eqn:E.
  - destruct (center_lines width rest) as [rest' c]. cbn [fst] in *.
    constructor; [by eapply center_line_padded|done].
  - cbn [fst]. apply Forall2_same_length_lookup_2; [done|].
    intros i x y Hx Hy. rewrite Hx in Hy. injection Hy as <-.
    apply padded_refl.
Qed.

Lemma center_lines_length width content :
  length (fst (center_lines width content)) = length content.
Proof. symmetry. eapply Forall2_length, center_lines_padded. Qed.

(** A second application to a line the pass has rewritten changes
    nothing. *)
Lemma center_line_idem width line line' :
  center_line width line = Normal line' ->
  center_line width line' = Normal line'.
Proof.
  destruct (startsWith line (lit "---") && (width >? len line)) eqn:Hdiv.
  - apply andb_true_iff in Hdiv as [Hs Hw]. zbool.
    rewrite center_line_divider by done. intros [= <-].
    set (d := width - len line) in *.
    assert (0 < d) as Hd by (unfold d; lia).
    apply center_line_other.
    + apply andb_false_iff. right.
      assert (Hlen : len (replicate (Z.to_nat (d / 2)) dash ++ line
                          ++ replicate (Z.to_nat (d / 2)) dash
                          ++ replicate (Z.to_nat (Z.rem d 2)) dash) = width).
      { unfold len. rewrite !length_app, !length_replicate.
        pose proof (Z.div_pos d 2 ltac:(lia) ltac:(lia)).
        pose proof (Z.rem_nonneg d 2 ltac:(lia) ltac:(lia)).
        pose proof (Z.quot_rem' d 2) as Hq.
        rewrite Z.quot_div_nonneg in Hq by lia.
        unfold d, len in *. lia. }
      rewrite Hlen. lia.
    + destruct line as [|c s]; [done|].
      apply startsWith_cons in Hs as [<- _].
      by destruct (Z.to_nat (d / 2)).
  - destruct (startsWith line (lit "@")) eqn:Ht.
    + rewrite center_line_title by done.
      destruct (Z.ltb_spec ((width - len line) / 2) 0) as [|Hp]; [done|].
      intros [= <-].
      destruct (Z.to_nat ((width - len line) / 2)) as [|n] eqn:En.
      * cbn [replicate app]. rewrite center_line_title by done.
        destruct (Z.ltb_spec ((width - len line) / 2) 0); [lia|].
        by rewrite En.
      * apply center_line_other; [done|reflexivity].
    + rewrite center_line_other by done. intros [= <-].
      by apply center_line_other.
Qed.

Lemma center_lines_idem width content :
  center_lines width (fst (center_lines width content))
  = center_lines width content.
Proof.
  induction content as [|line rest IH]; [done|]. cbn [center_lines].
  destruct (center_line width line) as [line'|e] eqn:E.
  - destruct (center_lines width rest) as [rest' c]. cbn [fst] in *.
    cbn [center_lines]. rewrite (center_line_idem _ _ _ E). by rewrite IH.
  - cbn [fst center_lines]. by rewrite E.
Qed.

(** ** [popup] *)

Lemma popup_cycle_eq d env trans :
  popup_cycle d env trans
  = let content := buildContent trans in
    let queries := winSize_queries d content in
    match center_lines (popup_width d trans) content with
    | (content', Throw e) => (content', (queries, Throw e))
    | (content', Normal _) =>
        (content',
         (queries
          ++ log_of (render (nvim d) env (popup_height d trans)
                       (popup_width d trans) content'),
          outcome (render (nvim d) env (popup_height d trans)
                     (popup_width d trans) content')))
    end.
Proof.
  unfold popup_cycle. rewrite buildContent_guard, winSize_eq.
  cbv beta iota zeta. fold (popup_width d trans) (popup_height d trans).
  fold (winSize_queries d (buildContent trans)).
  rewrite center_pass_eq.
  destruct (center_lines _ _) as [content' [[]|e]]; [|done].
  by rewrite bind_normal.
Qed.

(** The title is the first line the pass visits: when it is longer than
    the width, the pass stops there with nothing rewritten. *)
Lemma center_lines_long_title width line rest :
  startsWith line (lit "@") = true -> width < len line ->
  center_lines width (line :: rest) = (line :: rest, Throw RangeError).
Proof.
  intros Hs Hw. cbn [center_lines]. rewrite center_line_title by done.
  assert ((width - len line) / 2 < 0) as Hp
    by (apply Z.div_lt_upper_bound; lia).
  by destruct (Z.ltb_spec ((width - len line) / 2) 0); [|lia].
Qed.

Lemma title_line_starts trans : startsWith (title_line trans) (lit "@") = true.
Proof. reflexivity. Qed.

Lemma popup_title_too_long d env trans :
  popup_width d trans < len (title_line trans) ->
  popup_cycle d env trans
  = (buildContent trans,
     (winSize_queries d (buildContent trans), Throw RangeError)).
Proof.
  intros Hw. rewrite popup_cycle_eq. cbv zeta.
  pose proof (buildContent_cons trans) as Hb.
  destruct (buildContent trans) as [|line rest]; [done|].
  injection Hb as -> _.
  by rewrite center_lines_long_title; [|apply title_line_starts|].
Qed.

(** ** No results (C1) *)

(** C1, as stated, fails: for a translation without results, in an editor
    of 100 columns and 40 lines with the sizes left to the editor, [popup]
    does call the editor (two option queries, the width query for the
    title, and the creation of the floating window). *)
Lemma popup_no_results_calls_editor :
  results Examples.no_results = []
  /\ ~ (length (buildContent Examples.no_results) = 1%nat
        /\ log_of (popup (Examples.sized 100 40 0 0) Examples.with_float
                     Examples.no_results) = []).
Proof. split; [reflexivity|]. intros [_ H]. vm_compute in H. discriminate H. Qed.

(** C1, amended: for every translation with [results = []] the built
    content is exactly the title line; the guard of [popup] tests for a
    content of zero lines, which the builder never produces, so [popup]
    goes on: its calls on the editor are the queries of [winSize], among
    them the display-width query for the title line, followed, when the
    centering pass does not throw, by the calls that render the window. *)
Theorem popup_no_results d env trans :
  results trans = [] ->
  buildContent trans = [title_line trans]
  /\ (forall trans', (length (buildContent trans') =? 0)%nat = false)
  /\ (exists rendering,
        log_of (popup d env trans)
        = resolve_queries (maxWidth (winConfig d)) (lit "&columns")
          ++ resolve_queries (maxHeight (winConfig d)) (lit "&lines")
          ++ [Call (lit "strdisplaywidth") (title_line trans)]
          ++ rendering
        /\ (outcome (popup d env trans) = Normal tt ->
            exists lines,
              rendering
              = log_of (render (nvim d) env (popup_height d trans)
                          (popup_width d trans) lines))).
Proof.
  intros Hres.
  assert (Hb : buildContent trans = [title_line trans])
    by (by rewrite buildContent_cons, Hres).
  split; [done|]. split; [apply buildContent_guard|].
  unfold popup. rewrite popup_cycle_eq. cbv zeta. rewrite Hb.
  unfold winSize_queries, width_queries. cbn [map].
  destruct (center_lines _ _) as [content' [[]|e]]; cbn [snd log_of outcome fst].
  - eexists. split; [by rewrite <- !app_assoc|]. intros _. by eexists.
  - exists []. split; [by rewrite app_nil_r|]. unfold outcome. by cbn.
Qed.

Lemma popup_no_results_witness :
  buildContent Examples.no_results = [title_line Examples.no_results]
  /\ exists rendering,
       log_of (popup (Examples.sized 100 40 0 0) Examples.with_float
                 Examples.no_results)
       = [Eval (lit "&columns")] ++ [Eval (lit "&lines")]
         ++ [Call (lit "strdisplaywidth") (title_line Examples.no_results)]
         ++ rendering.
Proof.
  destruct (popup_no_results (Examples.sized 100 40 0 0) Examples.with_float
              Examples.no_results eq_refl) as (Hb & _ & rendering & Hlog & _).
  split; [exact Hb|]. exists rendering. exact Hlog.
Defined.

(** ** The loop of [winSize] (C2) *)

(** C2: [winSize] runs its loop over the lines in order, with the
    resolved [maxWidth] and the running height and width both starting
    at 0, and returns the width the loop ends with and its height clamped
    to the resolved [maxHeight].  When the loop stands at [(h, w)] after
    the lines [pre], a next line with [displayWidth + 2 <= maxWidth] adds
    exactly 1 to the height and makes the width the maximum of the width
    and [displayWidth + 2]; a next line with [displayWidth + 2 > maxWidth]
    adds [Math.floor((displayWidth + 2) / maxWidth) + 1] to the height,
    the integer quotient rounded down whenever [maxWidth] is not 0, and
    sets the width to [maxWidth], which is then the width [winSize]
    returns whatever lines follow.  The second case is stated for widths
    below 2^53 in sum of absolute values, where the quotient of the two
    doubles rounds down to the quotient of the integers. *)
Theorem winSize_line d pre line h w :
  let nv := nvim d in
  let mw := resolved_maxWidth d in
  let mh := resolved_maxHeight d in
  let lw := call nv (lit "strdisplaywidth") line + 2 in
  outcome (winSize_loop nv mw pre (Fin 0, 0)) = Normal (h, w) ->
  outcome (winSize d pre) = Normal (clamp_height h mh, w)
  /\ (lw <= mw ->
      outcome (winSize_loop nv mw (pre ++ [line]) (Fin 0, 0))
      = Normal (Number.add h (Fin 1), Z.max w lw)
      /\ outcome (winSize d (pre ++ [line]))
         = Normal (clamp_height (Number.add h (Fin 1)) mh, Z.max w lw))
  /\ (lw > mw ->
      Z.abs lw + Z.abs mw <= 2 ^ 53 ->
      let added := Number.add (Number.Math_floor_div lw mw) (Fin 1) in
      outcome (winSize_loop nv mw (pre ++ [line]) (Fin 0, 0))
      = Normal (Number.add h added, mw)
      /\ outcome (winSize d (pre ++ [line]))
         = Normal (clamp_height (Number.add h added) mh, mw)
      /\ (mw <> 0 -> added = Fin (lw / mw + 1))
      /\ forall post, exists h',
           outcome (winSize d (pre ++ line :: post)) = Normal (h', mw)).
Proof.
  intros nv mw mh lw Hpre. rewrite winSize_loop_eq in Hpre.
  injection Hpre as Hpre.
  assert (Hwin : forall content,
            outcome (winSize d content)
            = Normal (clamp_height (fst (winSize_fold nv mw content (Fin 0, 0)))
                        mh,
                      snd (winSize_fold nv mw content (Fin 0, 0))))
    by (intros content; by rewrite winSize_eq).
  split; [by rewrite Hwin, Hpre|]. split.
  - intros Hlw.
    assert (Hstep : winSize_fold nv mw (pre ++ [line]) (Fin 0, 0)
                    = (Number.add h (Fin 1), Z.max w lw)).
    { rewrite winSize_fold_app, Hpre, winSize_fold_cons.
      unfold winSize_fold. cbn [fold_left]. unfold winSize_step. fold nv lw.
      assert ((lw >? mw) = false) as -> by lia.
      by rewrite Z.max_comm. }
    split.
    + rewrite winSize_loop_eq. unfold outcome. cbn [snd]. by rewrite Hstep.
    + by rewrite Hwin, Hstep.
  - intros Hlw _ added.
    assert (Hstep : winSize_fold nv mw (pre ++ [line]) (Fin 0, 0)
                    = (Number.add h added, mw)).
    { rewrite winSize_fold_app, Hpre, winSize_fold_cons.
      unfold winSize_fold. cbn [fold_left]. unfold winSize_step. fold nv lw.
      by assert ((lw >? mw) = true) as -> by lia. }
    split; [|split; [|split]].
    + rewrite winSize_loop_eq. unfold outcome. cbn [snd]. by rewrite Hstep.
    + by rewrite Hwin, Hstep.
    + intros Hmw. unfold added, Number.Math_floor_div.
      by destruct (Z.eqb_spec mw 0).
    + intros post. rewrite Hwin.
      replace (pre ++ line :: post) with ((pre ++ [line]) ++ post)
        by (by rewrite <- app_assoc).
      rewrite winSize_fold_app, Hstep.
      pose proof (winSize_fold_width_stays nv mw post (Number.add h added))
        as Hw.
      destruct (winSize_fold nv mw post _) as [h' w']. cbn [snd] in Hw.
      subst w'. by eexists.
Qed.

Lemma winSize_line_witness :
  outcome (winSize (Examples.sized 100 40 10 0) [lit "abc"])
  = Normal (Fin 1, 5)
  /\ outcome (winSize (Examples.sized 100 40 10 0)
                [lit "abc"; lit "a line of 21 letters."])
     = Normal (Fin 4, 10)
  /\ exists h',
       outcome (winSize (Examples.sized 100 40 10 0)
                  [lit "abc"; lit "a line of 21 letters."; lit "x"])
       = Normal (h', 10).
Proof.
  destruct (winSize_line (Examples.sized 100 40 10 0) [] (lit "abc")
              (Fin 0) 0 eq_refl) as (_ & Hfit & _).
  destruct (Hfit ltac:(vm_compute; discriminate)) as [Hloop Hone].
  destruct (winSize_line (Examples.sized 100 40 10 0) [lit "abc"]
              (lit "a line of 21 letters.") (Fin 1) 5 Hloop)
    as (_ & _ & Hover).
  destruct (Hover ltac:(vm_compute; reflexivity)
              ltac:(vm_compute; discriminate)) as (_ & Htwo & _ & Hrest).
  split; [exact Hone|]. split; [exact Htwo|]. exact (Hrest [lit "x"]).
Defined.

(** The quotient of the doubles and the quotient of the integers, rounded
    down, agree on every pair of a width up to 50 and a positive
    [maxWidth] up to 10, on the divisions by zero and on some larger
    pairs within the bound; beyond it they part, as for the width
    3 * 2^52 + 2 and [maxWidth = 3]. *)
Lemma floor_quotient_samples :
  Forall (fun '(a, b) => Float64.floor_quotient a b = Number.Math_floor_div a b)
    (list_prod (map Z.of_nat (seq 0 51)) (map Z.of_nat (seq 1 10))
     ++ [(61, 60); (179, 60); (4095, 48); (1000003, 7); (5, 0); (-5, 0);
         (0, 0); (7, -2); (-7, 2); (2 ^ 31 + 5, 3); (2 ^ 52 + 1, 3);
         (2 ^ 53 - 3, 2)])
  /\ Float64.floor_quotient (3 * 2 ^ 52 + 2) 3 = Fin (2 ^ 52 + 1)
  /\ Number.Math_floor_div (3 * 2 ^ 52 + 2) 3 = Fin (2 ^ 52).
Proof.
  split; [|split; vm_compute; reflexivity].
  apply Forall_forall. intros [a b] Hin.
  assert (H : forallb
                (fun '(a, b) =>
                   match Float64.floor_quotient a b,
                         Number.Math_floor_div a b with
                   | Fin x, Fin y => x =? y
                   | PInf, PInf | NInf, NInf | NaN, NaN => true
                   | _, _ => false
                   end)
                (list_prod (map Z.of_nat (seq 0 51)) (map Z.of_nat (seq 1 10))
                 ++ [(61, 60); (179, 60); (4095, 48); (1000003, 7); (5, 0);
                     (-5, 0); (0, 0); (7, -2); (-7, 2); (2 ^ 31 + 5, 3);
                     (2 ^ 52 + 1, 3); (2 ^ 53 - 3, 2)]) = true)
    by (vm_compute; reflexivity).
  rewrite forallb_forall in H. apply list_elem_of_In in Hin.
  specialize (H _ Hin). cbv beta iota in H.
  destruct (Float64.floor_quotient a b), (Number.Math_floor_div a b);
    try discriminate H; try reflexivity.
  f_equal. by apply Z.eqb_eq.
Qed.

(** ** The clamped height and the unclamped lines (C6) *)

(** C6: for every content and configuration [winSize] returns, and the
    height it returns is an integer no larger than the resolved
    [maxHeight]; the array of lines keeps its length through the centering
    pass, whatever the width and whether or not the pass throws, and so
    through the whole of [popup]. *)
Theorem winSize_height_clamped_lines_kept d env trans content width :
  (exists z w,
     outcome (winSize d content) = Normal (Fin z, w)
     /\ z <= resolved_maxHeight d)
  /\ length (fst (center_pass width content)) = length content
  /\ length (fst (popup_cycle d env trans)) = length (buildContent trans).
Proof.
  split; [|split].
  - rewrite winSize_eq. unfold outcome. cbn [snd]. cbv zeta.
    destruct (clamp_height_le
                (fst (winSize_fold (nvim d) (resolved_maxWidth d) content
                        (Fin 0, 0)))
                (resolved_maxHeight d)) as (z & Hz & Hle).
    { by apply winSize_fold_height_ok. }
    exists z, (snd (winSize_fold (nvim d) (resolved_maxWidth d) content
                      (Fin 0, 0))).
    by rewrite Hz.
  - rewrite center_pass_eq. apply center_lines_length.
  - rewrite popup_cycle_eq. cbv zeta.
    pose proof (center_lines_length (popup_width d trans) (buildContent trans))
      as Hlen.
    by destruct (center_lines _ _) as [content' [[]|e]].
Qed.

(** ** The sentinel 0 (C7) *)

Lemma round_0_6_100 : Float64.round_0_6 100 = 60.
Proof. vm_compute. reflexivity. Qed.

(** On the values an editor option takes, [Math.round(0.6 * n)] in
    binary64 is the integer nearest to [6 n / 10]. *)
Lemma round_0_6_nearest n :
  0 <= n <= 1000 -> Float64.round_0_6 n = (6 * n + 5) / 10.
Proof.
  intros Hn.
  assert (H : forallb
                (fun k => Float64.round_0_6 (Z.of_nat k)
                          =? (6 * Z.of_nat k + 5) / 10)
                (seq 0 (Z.to_nat 1001)) = true)
    by (vm_compute; reflexivity).
  rewrite forallb_forall in H.
  specialize (H (Z.to_nat n)). rewrite Z2Nat.id in H by lia.
  apply Z.eqb_eq, H, in_seq. lia.
Qed.

(** C7: a configured [maxWidth] of 0 makes [winSize] ask the editor for
    [&columns] and run its loop with [Math.round(0.6 * columns)], and a
    configured [maxHeight] of 0 makes it ask for [&lines] and clamp the
    height to [Math.round(0.6 * lines)]; for an option value up to 1000
    that is the integer nearest to six tenths of it.  With [maxWidth = 0]
    and 100 columns the width resolves to 60, and a line of display
    width 58 takes the branch of the lines that fit: after it the height
    is one more and the width is 60. *)
Theorem winSize_sentinel d content :
  (maxWidth (winConfig d) = 0 ->
   exists h w,
     outcome (winSize_loop (nvim d)
                (Float64.round_0_6 (eval (nvim d) (lit "&columns")))
                content (Fin 0, 0)) = Normal (h, w)
     /\ outcome (winSize d content)
        = Normal (clamp_height h (resolved_maxHeight d), w)
     /\ Eval (lit "&columns") ∈ log_of (winSize d content))
  /\ (maxHeight (winConfig d) = 0 ->
      exists h w,
        outcome (winSize_loop (nvim d) (resolved_maxWidth d) content
                   (Fin 0, 0)) = Normal (h, w)
        /\ outcome (winSize d content)
           = Normal (clamp_height h
                       (Float64.round_0_6 (eval (nvim d) (lit "&lines"))),
                     w)
        /\ Eval (lit "&lines") ∈ log_of (winSize d content))
  /\ (forall n, 0 <= n <= 1000 ->
      Float64.round_0_6 n = (6 * n + 5) / 10)
  /\ (maxWidth (winConfig d) = 0 ->
      eval (nvim d) (lit "&columns") = 100 ->
      forall pre line h w,
        content = pre ++ [line] ->
        call (nvim d) (lit "strdisplaywidth") line = 58 ->
        outcome (winSize_loop (nvim d) 60 pre (Fin 0, 0)) = Normal (h, w) ->
        resolved_maxWidth d = 60
        /\ winSize_step 60 (h, w) (58 + 2) = (Number.add h (Fin 1), 60)
        /\ outcome (winSize d content)
           = Normal (clamp_height (Number.add h (Fin 1))
                       (resolved_maxHeight d),
                     60)).
Proof.
  split; [|split; [|split]].
  - intros Hcfg.
    assert (Hmw : resolved_maxWidth d
                  = Float64.round_0_6 (eval (nvim d) (lit "&columns")))
      by (unfold resolved_maxWidth, resolved; by rewrite Hcfg).
    rewrite winSize_loop_eq, winSize_eq, <- Hmw. cbv zeta.
    destruct (winSize_fold _ _ _ _) as [h w]. exists h, w.
    split; [reflexivity|]. split; [reflexivity|].
    unfold log_of, resolve_queries. cbn [fst]. rewrite Hcfg.
    apply elem_of_app. left. by apply list_elem_of_singleton.
  - intros Hcfg.
    assert (Hmh : resolved_maxHeight d
                  = Float64.round_0_6 (eval (nvim d) (lit "&lines")))
      by (unfold resolved_maxHeight, resolved; by rewrite Hcfg).
    rewrite winSize_loop_eq, winSize_eq, <- Hmh. cbv zeta.
    destruct (winSize_fold _ _ _ _) as [h w]. exists h, w.
    split; [reflexivity|]. split; [reflexivity|].
    unfold log_of, resolve_queries. cbn [fst]. rewrite Hcfg.
    apply elem_of_app. right. apply elem_of_app. left.
    by apply list_elem_of_singleton.
  - apply round_0_6_nearest.
  - intros Hcfg Hcols pre line h w -> Hline Hpre.
    assert (Hmw : resolved_maxWidth d = 60).
    { unfold resolved_maxWidth, resolved.
      rewrite Hcfg, Hcols. apply round_0_6_100. }
    rewrite winSize_loop_eq in Hpre. injection Hpre as Hpre.
    assert (Hw : w <= 60).
    { change w with (snd (h, w)). rewrite <- Hpre.
      by apply winSize_fold_width_le. }
    assert (Hstep : winSize_step 60 (h, w) (58 + 2)
                    = (Number.add h (Fin 1), 60)).
    { unfold winSize_step. cbn [Z.add Z.gtb Z.compare Pos.add Pos.compare
                                  Pos.succ Pos.compare_cont].
      f_equal. lia. }
    split; [done|]. split; [done|].
    rewrite winSize_eq, Hmw. cbv zeta. unfold outcome. cbn [snd].
    rewrite winSize_fold_app, Hpre, winSize_fold_cons, Hline.
    unfold winSize_fold. cbn [fold_left]. by rewrite Hstep.
Qed.

Lemma winSize_sentinel_witness :
  outcome (winSize (Examples.sized 100 40 0 0) [replicate 58 97%N])
  = Normal (Fin 1, 60)
  /\ Eval (lit "&columns")
     ∈ log_of (winSize (Examples.sized 100 40 0 0) [replicate 58 97%N])
  /\ Eval (lit "&lines")
     ∈ log_of (winSize (Examples.sized 100 40 0 0) [replicate 58 97%N])
  /\ Float64.round_0_6 40 = 24.
Proof.
  pose proof (winSize_sentinel (Examples.sized 100 40 0 0)
                [replicate 58 97%N]) as (Hwidth & Hheight & Hround & Hscenario).
  destruct (Hwidth eq_refl) as (? & ? & _ & _ & Hcolumns).
  destruct (Hheight eq_refl) as (? & ? & _ & _ & Hlines).
  destruct (Hscenario eq_refl eq_refl [] (replicate 58 97%N) (Fin 0) 0
              eq_refl eq_refl eq_refl) as (_ & _ & Hout).
  split; [exact Hout|]. split; [exact Hcolumns|]. split; [exact Hlines|].
  rewrite (Hround 40); [reflexivity|lia].
Defined.

(** ** The centering pass (C3, C8, C9, C10) *)

(** C3, at the input where the code departs from it: a text of fifty
    letters, no results, an editor of 80 columns with the sizes left to
    the editor.  The title line has 54 code units and the width is 48;
    the line is not shorter than the width, so C3 has it unchanged, but
    the pass throws a [RangeError] on it and [popup] is rejected after
    the queries of [winSize], with nothing rendered. *)
Theorem popup_long_title_rejected :
  len (title_line Examples.long_text) = 54
  /\ outcome (winSize (Examples.sized 80 24 0 0)
                (buildContent Examples.long_text))
     = Normal (Fin 2, 48)
  /\ center_pass 48 (buildContent Examples.long_text)
     = (buildContent Examples.long_text, Throw RangeError)
  /\ popup (Examples.sized 80 24 0 0) Examples.with_float Examples.long_text
     = ([Eval (lit "&columns"); Eval (lit "&lines");
         Call (lit "strdisplaywidth") (title_line Examples.long_text)],
        Throw RangeError).
Proof. vm_compute. repeat split; reflexivity. Qed.

(** C8: the centering pass keeps the number and the order of the lines:
    line [i] of the array after the pass is line [i] before it with
    filler characters (dashes or spaces) added in front of it and after
    it, and nothing else; this holds for every array and width, whether
    or not the pass throws, and so for the content [popup] builds. *)
Theorem centering_pads_in_place d env trans width content :
  Forall2 padded content (fst (center_pass width content))
  /\ Forall2 padded (buildContent trans) (fst (popup_cycle d env trans)).
Proof.
  split.
  - rewrite center_pass_eq. apply center_lines_padded.
  - rewrite popup_cycle_eq. cbv zeta.
    pose proof (center_lines_padded (popup_width d trans) (buildContent trans))
      as Hpad.
    by destruct (center_lines _ _) as [content' [[]|e]].
Qed.

(** C9: the step leaves a divider line whose length is the width as it
    is; a divider line shorter than the width comes out of the step with
    exactly the width as its length; and running the pass again, with the
    same width, on the array the first run left gives the same array and
    the same completion. *)
Theorem centering_idempotent width :
  (forall i content line,
     content !! i = Some line ->
     startsWith line (lit "---") = true ->
     len line = width ->
     center_at width i content = (content, Normal tt))
  /\ (forall i content line,
        content !! i = Some line ->
        startsWith line (lit "---") = true ->
        len line < width ->
        exists line',
          center_at width i content = (<[i := line']> content, Normal tt)
          /\ startsWith line' (lit "---") = true
          /\ len line' = width)
  /\ (forall content,
        center_pass width (fst (center_pass width content))
        = center_pass width content).
Proof.
  split; [|split].
  - intros i content line Hi Hs Hlen.
    rewrite (center_at_eq _ _ _ _ Hi), center_line_other.
    + by rewrite list_insert_id.
    + apply andb_false_iff. right. lia.
    + destruct line as [|c s]; [done|].
      by apply startsWith_cons in Hs as [<- _].
  - intros i content line Hi Hs Hlen.
    rewrite (center_at_eq _ _ _ _ Hi), center_line_divider by done.
    eexists. split; [reflexivity|].
    set (dd := width - len line) in *.
    assert (0 < dd) as Hd by (unfold dd; lia).
    split.
    + destruct (divider_inv _ Hs) as [s ->].
      destruct (Z.to_nat (dd / 2)) as [|[|[|n]]]; reflexivity.
    + unfold len. rewrite !length_app, !length_replicate.
      pose proof (Z.div_pos dd 2 ltac:(lia) ltac:(lia)).
      pose proof (Z.rem_nonneg dd 2 ltac:(lia) ltac:(lia)).
      pose proof (Z.quot_rem' dd 2) as Hq.
      rewrite Z.quot_div_nonneg in Hq by lia.
      unfold dd, len in *. lia.
  - intros content. rewrite !center_pass_eq. apply center_lines_idem.
Qed.

Lemma centering_idempotent_witness :
  center_at 5 0 [lit "-----"] = ([lit "-----"], Normal tt)
  /\ (exists line',
        center_at 6 0 [lit "---"] = ([line'], Normal tt) /\ len line' = 6)
  /\ center_pass 6 (fst (center_pass 6 [lit "@ a @"; lit "---"]))
     = center_pass 6 [lit "@ a @"; lit "---"].
Proof.
  destruct (centering_idempotent 5) as (Hsame & _ & _).
  destruct (centering_idempotent 6) as (_ & Hshort & Hpass).
  split; [exact (Hsame 0%nat [lit "-----"] (lit "-----") eq_refl eq_refl eq_refl)|].
  split; [|exact (Hpass [lit "@ a @"; lit "---"])].
  destruct (Hshort 0%nat [lit "---"] (lit "---") eq_refl eq_refl
              ltac:(vm_compute; reflexivity)) as (line' & Hat & _ & Hlen).
  exists line'. split; [exact Hat|exact Hlen].
Defined.

(** C10: the title branch has no guard on the width.  For a line that
    starts with [@] the step computes
    [padding = Math.floor((width - line.length) / 2)] and repeats the
    space that many times, whatever the sign; when the line is longer
    than the width the count is negative, [repeat] throws a [RangeError]
    and the array is left as it was.  So [popup] is rejected, with
    nothing rendered, for every translation whose title line is longer
    than the width [winSize] returns, and there is such a translation. *)
Theorem title_branch_unguarded :
  (forall width i content line,
     content !! i = Some line ->
     startsWith line (lit "@") = true ->
     center_at width i content
     = match String_repeat (lit " ") ((width - len line) / 2) with
       | Normal p => (<[i := p ++ line]> content, Normal tt)
       | Throw e => (content, Throw e)
       end)
  /\ (forall width i content line,
        content !! i = Some line ->
        startsWith line (lit "@") = true ->
        width < len line ->
        (width - len line) / 2 < 0
        /\ center_at width i content = (content, Throw RangeError))
  /\ (forall d env trans,
        popup_width d trans < len (title_line trans) ->
        popup d env trans
        = (winSize_queries d (buildContent trans), Throw RangeError))
  /\ (exists d env trans,
        popup_width d trans < len (title_line trans)
        /\ outcome (popup d env trans) = Throw RangeError).
Proof.
  split; [|split; [|split]].
  - intros width i content line Hi Hs.
    rewrite (center_at_eq _ _ _ _ Hi). unfold center_line.
    rewrite (title_not_divider _ Hs), Hs. cbn [andb].
    by destruct (String_repeat _ _).
  - intros width i content line Hi Hs Hw.
    assert ((width - len line) / 2 < 0) as Hp
      by (apply Z.div_lt_upper_bound; lia).
    split; [done|].
    rewrite (center_at_eq _ _ _ _ Hi), center_line_title by done.
    by destruct (Z.ltb_spec ((width - len line) / 2) 0); [|lia].
  - intros d env trans Hw. unfold popup.
    by rewrite popup_title_too_long.
  - exists (Examples.sized 80 24 0 0), Examples.with_float, Examples.long_text.
    split; vm_compute; reflexivity.
Qed.

Lemma title_branch_unguarded_witness :
  center_at 3 0 [lit "@ a @"] = ([lit "@ a @"], Throw RangeError)
  /\ center_at 9 0 [lit "@ a @"] = ([lit "  @ a @"], Normal tt)
  /\ outcome (popup (Examples.sized 80 24 0 0) Examples.without_float
                Examples.long_text) = Throw RangeError.
Proof.
  destruct title_branch_unguarded as (Hany & Hlong & Hpopup & _).
  split; [|split].
  - exact (proj2 (Hlong 3 0%nat [lit "@ a @"] (lit "@ a @") eq_refl eq_refl
                    ltac:(vm_compute; reflexivity))).
  - exact (Hany 9 0%nat [lit "@ a @"] (lit "@ a @") eq_refl eq_refl).
  - rewrite (Hpopup (Examples.sized 80 24 0 0) Examples.without_float
               Examples.long_text ltac:(vm_compute; reflexivity)).
    reflexivity.
Defined.

(** ** [echo] (C4) *)

Lemma none_before_snoc field pre t :
  none_before field (pre ++ [t]) = none_before field pre && negb (field t).
Proof.
  unfold none_before. rewrite forallb_app. cbn [forallb].
  by rewrite andb_true_r.
Qed.

Lemma echo_step_tracks st pre t :
  echo_flags_track st pre ->
  echo_flags_track (echo_step st t) (pre ++ [t])
  /\ fragments (echo_step st t)
     = fragments st
       ++ (if has_phonetic t && none_before has_phonetic pre
           then [lit "[" ++ interp (phonetic t) ++ lit "]"] else [])
       ++ (if has_paraphrase t && none_before has_paraphrase pre
           then [interp (paraphrase t)] else [])
       ++ (if has_explain t && none_before has_explain pre
           then [join (lit "; ") (explain t)] else []).
Proof.
  intros (Hp & Hq & He). unfold echo_flags_track.
  rewrite !none_before_snoc. unfold echo_step.
  fold (has_phonetic t) (has_paraphrase t) (has_explain t).
  destruct st as [fp fq fe frs]. cbn [hasPhonetic hasParaphrase hasExplain
                                        fragments] in *.
  subst fp fq fe.
  destruct (has_phonetic t), (none_before has_phonetic pre),
    (has_paraphrase t), (none_before has_paraphrase pre),
    (has_explain t), (none_before has_explain pre);
    cbn [negb andb hasPhonetic hasParaphrase hasExplain fragments];
    rewrite <- ?app_assoc, ?app_nil_r; done.
Qed.

Lemma echo_loop_fragments rest pre st :
  echo_flags_track st pre ->
  fragments (fold_left echo_step rest st)
  = fragments st ++ echo_fragments_by_engine pre rest.
Proof.
  revert pre st. induction rest as [|t rest IH]; intros pre st Hst.
  - cbn. by rewrite app_nil_r.
  - destruct (echo_step_tracks st pre t Hst) as [Hst' Hfr].
    cbn [fold_left echo_fragments_by_engine].
    rewrite (IH (pre ++ [t]) _ Hst'), Hfr.
    by rewrite <- !app_assoc.
Qed.

(** C4, as stated, fails on its own example: for the engines
    [{paraphrase: A}] and [{paraphrase: B, phonetic: /b/}] and the text
    [t] the message is not [t ==> /b/ A]. *)
Lemma echo_example_not_field_order :
  echo_message (Examples.two_engines (lit "t")) <> lit "t ==> /b/ A".
Proof. vm_compute. discriminate. Qed.

(** C4, amended: [echo] shows one message, the text, [ ==> ], and the
    fragments joined by single spaces.  Each of the three fields gives at
    most one fragment, taken from the first engine with a non-empty value
    for it (later values of the field are ignored): the phonetic between
    square brackets, the paraphrase as it is, the explanations joined by
    [; ].  The fragments stand in the order the scan meets them: engine
    by engine, and for one engine phonetic, paraphrase, explain.  For
    the two engines of the example the message is [<text> ==> A [/b/]]. *)
Theorem echo_first_per_field trans :
  echo trans
  = ([ShowMessage
        (text trans ++ lit " ==> "
         ++ join (lit " ") (echo_fragments_by_engine [] (results trans)))],
     Normal tt)
  /\ (forall txt,
        echo_message (Examples.two_engines txt) = txt ++ lit " ==> A [/b/]").
Proof.
  split; [|reflexivity].
  unfold echo, host, echo_message.
  by rewrite (echo_loop_fragments (results trans) [] echo_init).
Qed.

(** ** [replace] (C5) *)

Lemma replace_loop_skip pre rest :
  none_before has_paraphrase pre = true ->
  replace_loop (pre ++ rest) = replace_loop rest.
Proof.
  induction pre as [|u pre IH]; [done|]. cbn [none_before forallb].
  intros H. apply andb_true_iff in H as [Hu Hpre].
  cbn [app replace_loop]. unfold has_paraphrase in Hu.
  destruct (truthy (paraphrase u)); [done|]. by apply IH.
Qed.

(** The calls of [replace]: at the first engine with a non-empty
    paraphrase, the batch with the four commands and nothing for the
    engines after it; with no such engine the one message. *)
Lemma replace_calls trans :
  (forall pre t post p,
     results trans = pre ++ t :: post ->
     none_before has_paraphrase pre = true ->
     paraphrase t = Some p -> p <> [] ->
     replace trans = (replace_batch p, Normal tt))
  /\ (none_before has_paraphrase (results trans) = true ->
      replace trans
      = ([ShowMessage (lit "No paraphrase for replacement")], Normal tt)).
Proof.
  unfold replace. split.
  - intros pre t post p -> Hpre Ht Hp.
    rewrite replace_loop_skip by done. cbn [replace_loop].
    rewrite Ht. destruct p as [|c p]; [done|]. reflexivity.
  - intros Hnone.
    rewrite <- (app_nil_r (results trans)), replace_loop_skip by done.
    reflexivity.
Qed.

(** A paraphrase without an apostrophe, between single quotes, is read by
    Vim as that paraphrase, with nothing left over. *)
Lemma literal_string_plain (p : jsstring) :
  Vim.apostrophe ∉ p ->
  Vim.literal_string (lit "'" ++ p ++ lit "'") = Some (p, []).
Proof.
  intros Hp. change (lit "'") with [Vim.apostrophe].
  cbn [app Vim.literal_string]. rewrite N.eqb_refl.
  induction p as [|c p IH]; cbn [app Vim.literal_string_body].
  - by rewrite N.eqb_refl.
  - apply not_elem_of_cons in Hp as [Hc Hp].
    destruct (N.eqb_spec c Vim.apostrophe) as [->|_]; [done|].
    by rewrite (IH Hp).
Qed.

(** C5, at the input where the code departs from it: one engine whose
    paraphrase is [l'eau].  [replace] does issue the batch of four
    commands, but the second is the text [let @a='l'eau'], the
    paraphrase put between single quotes as it is: Vim reads the string
    ['l'] there and is left with [eau'], so the command does not set the
    register to the paraphrase, and the paste that follows does not put
    the paraphrase in the buffer. *)
Theorem replace_apostrophe_not_assigned :
  replace Examples.water
  = ([PauseNotification;
      NotifyCommand (lit "let reg_tmp=@a");
      NotifyCommand (lit "let @a=" ++ lit "'l'eau'");
      NotifyCommand (lit "normal! viw" ++ dquote ++ lit "ap");
      NotifyCommand (lit "let @a=reg_tmp");
      ResumeNotification],
     Normal tt)
  /\ Vim.literal_string (lit "'l'eau'") = Some (lit "l", lit "eau'")
  /\ Vim.literal_string (lit "'l'eau'") <> Some (lit "l'eau", []).
Proof.
  split; [reflexivity|]. split; [reflexivity|]. vm_compute. discriminate.
Qed.

(** * Further properties of the display commands *)

(** ** The shape of the built content (X1) *)

Lemma engine_lines_length t : length (engine_lines t) = engine_line_count t.
Proof.
  unfold engine_lines, engine_line_count.
  rewrite !length_app.
  assert (Hex : length (if negb (length (explain t) =? 0)%nat
                        then map (fun i => (glyph_explain ++ lit " ") ++ i)
                               (explain t)
                        else [])
                = length (explain t))
    by (destruct (explain t); [done|]; cbn [length Nat.eqb negb];
        by rewrite length_map).
  rewrite Hex.
  destruct (truthy (phonetic t)), (truthy (paraphrase t));
    cbn [length Nat.b2n]; lia.
Qed.

(** X1: the built content has one line for the title and, for each
    engine, a blank line, a divider, one line for a non-empty phonetic,
    one for a non-empty paraphrase and one per explanation; the lines of
    an engine stand together, after those of the engines before it and
    before those of the engines after it. *)
Theorem buildContent_blocks trans :
  length (buildContent trans)
  = (1 + sum_list (map engine_line_count (results trans)))%nat
  /\ (forall pre t post,
        results trans = pre ++ t :: post ->
        buildContent trans
        = buildContent {| text := text trans; results := pre |}
          ++ engine_lines t
          ++ concat (map engine_lines post)).
Proof.
  split.
  - rewrite buildContent_cons. cbn [length]. f_equal.
    induction (results trans) as [|t rs IH]; [done|].
    cbn [map concat sum_list sum_list_with]. rewrite length_app, engine_lines_length.
    by rewrite IH.
  - intros pre t post Hres. rewrite !buildContent_cons, Hres.
    cbn [results text]. unfold title_line. cbn [text].
    rewrite map_app, concat_app. cbn [map concat].
    by rewrite <- app_comm_cons.
Qed.

Lemma buildContent_blocks_witness :
  length (buildContent Examples.short_word) = 10%nat
  /\ buildContent Examples.short_word
     = buildContent {| text := lit "hello"; results := [] |}
       ++ engine_lines Examples.engine_full
       ++ concat (map engine_lines [Examples.engine_A]).
Proof.
  destruct (buildContent_blocks Examples.short_word) as [Hlen Hblocks].
  split; [exact Hlen|].
  exact (Hblocks [] Examples.engine_full [Examples.engine_A] eq_refl).
Defined.

(** ** When the centering pass throws, and what [popup] sends otherwise
       (X2, X3, X4) *)

Lemma engine_lines_no_title t :
  Forall (fun line => startsWith line (lit "@") = false) (engine_lines t).
Proof.
  unfold engine_lines. repeat apply Forall_app_2.
  - by repeat constructor.
  - by repeat constructor.
  - destruct (truthy (phonetic t)); by repeat constructor.
  - destruct (truthy (paraphrase t)); by repeat constructor.
  - destruct (negb _); [|constructor].
    apply Forall_map, Forall_true. intros i. reflexivity.
Qed.

Lemma engines_no_title rs :
  Forall (fun line => startsWith line (lit "@") = false)
    (concat (map engine_lines rs)).
Proof.
  induction rs as [|t rs IH]; [constructor|]. cbn [map concat].
  apply Forall_app_2; [apply engine_lines_no_title|done].
Qed.

(** Off the title branch the step never throws. *)
Lemma center_line_no_title width line :
  startsWith line (lit "@") = false ->
  exists line', center_line width line = Normal line'.
Proof.
  intros Ht.
  destruct (startsWith line (lit "---") && (width >? len line)) eqn:Hdiv.
  - apply andb_true_iff in Hdiv as [Hs Hw]. zbool.
    rewrite center_line_divider by done. by eexists.
  - rewrite center_line_other by done. by eexists.
Qed.

Lemma center_lines_no_title width content :
  Forall (fun line => startsWith line (lit "@") = false) content ->
  snd (center_lines width content) = Normal tt.
Proof.
  induction 1 as [|line rest Hline _ IH]; [done|]. cbn [center_lines].
  destruct (center_line_no_title width line Hline) as [line' ->].
  by destruct (center_lines width rest) as [rest' c].
Qed.

Lemma render_eq nv env height width content :
  render nv env height width content
  = (render_calls env height width content, Normal tt).
Proof. unfold render, render_calls. by destruct (floating env || textprop env). Qed.

Lemma winSize_outcome d trans h w :
  outcome (winSize d (buildContent trans)) = Normal (h, w) ->
  h = popup_height d trans /\ w = popup_width d trans.
Proof.
  rewrite winSize_eq. unfold outcome. cbn [snd]. cbv zeta.
  by intros [= <- <-].
Qed.

(** The completion of the centering pass on the built content. *)
Lemma center_lines_built width trans :
  snd (center_lines width (buildContent trans))
  = if len (title_line trans) <=? width then Normal tt else Throw RangeError.
Proof.
  rewrite buildContent_cons.
  destruct (Z.leb_spec (len (title_line trans)) width) as [Hfit|Hlong].
  - cbn [center_lines]. rewrite center_line_title by apply title_line_starts.
    assert (0 <= (width - len (title_line trans)) / 2) as Hp
      by (apply Z.div_pos; lia).
    destruct (Z.ltb_spec ((width - len (title_line trans)) / 2) 0); [lia|].
    pose proof (center_lines_no_title width _
                  (engines_no_title (results trans))) as Hrest.
    destruct (center_lines width _) as [rest' c]. by cbn [snd] in *.
  - by rewrite center_lines_long_title; [|apply title_line_starts|].
Qed.

(** X2: the centering pass on the built content throws exactly when
    the title line is longer (in code units) than the width, and then
    what it throws is a [RangeError]; no other line of the built content
    can make it throw, whatever the engines hold. *)
Theorem centering_throws_iff_title_long width trans :
  (snd (center_pass width (buildContent trans)) = Normal tt
   <-> len (title_line trans) <= width)
  /\ (snd (center_pass width (buildContent trans)) = Throw RangeError
      <-> width < len (title_line trans))
  /\ (forall e,
        snd (center_pass width (buildContent trans)) = Throw e ->
        e = RangeError).
Proof.
  rewrite center_pass_eq, center_lines_built.
  destruct (Z.leb_spec (len (title_line trans)) width);
    repeat split; intros; try done; try lia; congruence.
Qed.

(** X3: when the title line is no longer than the width, [popup] makes
    the calls of [winSize] and then renders once: where floating windows
    or text properties are supported, one floating window of the height
    [winSize] returned and two columns more than its width, holding the
    lines joined by line feeds; otherwise a batch of the preview call and
    a redraw between [pauseNotification] and [resumeNotification].  In
    both cases the lines sent are the built lines, each with fillers
    around it. *)
Theorem popup_renders_once d env trans h w :
  outcome (winSize d (buildContent trans)) = Normal (h, w) ->
  len (title_line trans) <= w ->
  exists lines,
    Forall2 padded (buildContent trans) lines
    /\ popup d env trans
       = (log_of (winSize d (buildContent trans))
          ++ (if floating env || textprop env then
                [FloatCreate false h (w + 2) (join newline lines)
                   (lit "translation")]
              else
                [PauseNotification;
                 NotifyCall (lit "coc#util#preview_info") lines
                   (lit "translation");
                 NotifyCommand (lit "redraw");
                 ResumeNotification]),
          Normal tt).
Proof.
  intros Hsize Hfit. apply winSize_outcome in Hsize as [-> ->].
  unfold popup. rewrite popup_cycle_eq. cbv zeta.
  pose proof (center_lines_built (popup_width d trans) trans) as Hc.
  pose proof (center_lines_padded (popup_width d trans) (buildContent trans))
    as Hpad.
  destruct (center_lines _ _) as [content' c]. cbn [fst snd] in Hc, Hpad.
  subst c.
  destruct (Z.leb_spec (len (title_line trans)) (popup_width d trans));
    [|lia].
  exists content'. split; [done|]. cbn [snd].
  rewrite render_eq, winSize_eq. by unfold log_of, outcome, winSize_queries.
Qed.

Lemma popup_renders_once_witness :
  exists lines,
    length lines = 10%nat
    /\ log_of (popup (Examples.sized 80 24 0 0) Examples.without_float
                 Examples.short_word)
       = log_of (winSize (Examples.sized 80 24 0 0)
                   (buildContent Examples.short_word))
         ++ [PauseNotification;
             NotifyCall (lit "coc#util#preview_info") lines
               (lit "translation");
             NotifyCommand (lit "redraw");
             ResumeNotification].
Proof.
  destruct (popup_renders_once (Examples.sized 80 24 0 0)
              Examples.without_float Examples.short_word (Fin 10) 21
              ltac:(vm_compute; reflexivity)
              ltac:(vm_compute; discriminate)) as (lines & Hpad & Hpopup).
  exists lines. split.
  - symmetry. exact (Forall2_length _ _ _ Hpad).
  - rewrite Hpopup. reflexivity.
Defined.

(** The running width is never below its start when that is within
    [maxWidth]. *)
Lemma winSize_fold_width_ge nv mw content h w :
  w <= mw -> w <= snd (winSize_fold nv mw content (h, w)).
Proof.
  revert h w. induction content as [|line rest IH]; intros h w Hw; [done|].
  rewrite winSize_fold_cons. unfold winSize_step.
  destruct (_ >? mw) eqn:E.
  - etrans; [exact Hw|]. by apply IH.
  - zbool. etrans; [|apply IH; lia]. lia.
Qed.

(** X4: when the title line is no longer than the resolved [maxWidth]
    and no longer than its display width plus two (as for a title of
    characters each at least one cell wide), the width [winSize] returns
    for the built content is at least the length of the title line, and
    the centering pass with that width does not throw. *)
Theorem title_fits_no_throw d trans h w :
  len (title_line trans) <= resolved_maxWidth d ->
  len (title_line trans)
  <= call (nvim d) (lit "strdisplaywidth") (title_line trans) + 2 ->
  outcome (winSize d (buildContent trans)) = Normal (h, w) ->
  len (title_line trans) <= w
  /\ snd (center_pass w (buildContent trans)) = Normal tt.
Proof.
  intros Hmax Hdisp Hsize. apply winSize_outcome in Hsize as [_ ->].
  assert (len (title_line trans) <= popup_width d trans) as Hfit.
  { unfold popup_width. rewrite buildContent_cons, winSize_fold_cons.
    set (lw := call (nvim d) (lit "strdisplaywidth") (title_line trans) + 2)
      in *.
    assert (0 <= len (title_line trans)) by (unfold len; lia).
    unfold winSize_step. destruct (lw >? resolved_maxWidth d) eqn:E.
    - by rewrite winSize_fold_width_stays.
    - zbool. etrans; [|apply winSize_fold_width_ge]; lia. }
  split; [done|].
  rewrite center_pass_eq, center_lines_built.
  by destruct (Z.leb_spec (len (title_line trans)) (popup_width d trans));
    [|lia].
Qed.

Lemma title_fits_no_throw_witness :
  len (title_line Examples.short_word) <= 21
  /\ snd (center_pass 21 (buildContent Examples.short_word)) = Normal tt.
Proof.
  exact (title_fits_no_throw (Examples.sized 80 24 0 0) Examples.short_word
           (Fin 10) 21
           ltac:(vm_compute; discriminate) ltac:(vm_compute; discriminate)
           ltac:(vm_compute; reflexivity)).
Defined.

(** ** What the centering pass leaves alone (X5) *)





(** ** More on [winSize] (X7, X8, X9) *)

Lemma foldr_max_base a w lws :
  foldr Z.max (Z.max a w) lws = Z.max a (foldr Z.max w lws).
Proof. induction lws as [|b lws IH]; [done|]. cbn [foldr]. rewrite IH. lia. Qed.

Lemma winSize_fold_all_fit nv mw content z w :
  Forall (fun lw => lw <= mw) (line_widths nv content) ->
  winSize_fold nv mw content (Fin z, w)
  = (Fin (z + Z.of_nat (length content)),
     foldr Z.max w (line_widths nv content)).
Proof.
  revert z w. induction content as [|line rest IH]; intros z w Hfit.
  - cbn. f_equal. f_equal. lia.
  - cbn [line_widths map] in Hfit. apply Forall_cons in Hfit as [Hline Hrest].
    rewrite winSize_fold_cons. unfold winSize_step.
    assert ((call nv (lit "strdisplaywidth") line + 2 >? mw) = false) as ->
      by lia.
    cbn [Number.add]. rewrite (IH _ _ Hrest).
    cbn [line_widths map foldr length].
    rewrite foldr_max_base. f_equal. f_equal. lia.
Qed.

(** X7: when every line fits, that is [strdisplaywidth(line) + 2] is at
    most the resolved [maxWidth] for each line, [winSize] returns as
    width the largest of these widths (0 for no line) and as height the
    number of lines, or [maxHeight] when there are more lines than
    that. *)
Theorem winSize_all_fit d content :
  Forall (fun lw => lw <= resolved_maxWidth d)
    (line_widths (nvim d) content) ->
  outcome (winSize d content)
  = Normal (Fin (Z.min (Z.of_nat (length content)) (resolved_maxHeight d)),
            foldr Z.max 0 (line_widths (nvim d) content)).
Proof.
  intros Hfit. rewrite winSize_eq. unfold outcome. cbn [snd]. cbv zeta.
  rewrite (winSize_fold_all_fit _ _ _ 0 0 Hfit). cbn [fst snd].
  unfold clamp_height. cbn [Number.gtb].
  replace (0 + Z.of_nat (length content)) with (Z.of_nat (length content))
    by lia.
  destruct (Z.gtb_spec (Z.of_nat (length content)) (resolved_maxHeight d)).
  - by rewrite Z.min_r by lia.
  - by rewrite Z.min_l by lia.
Qed.

Lemma winSize_all_fit_witness :
  outcome (winSize (Examples.sized 80 24 30 3)
             (buildContent Examples.short_word))
  = Normal (Fin 3, 21).
Proof.
  rewrite (winSize_all_fit (Examples.sized 80 24 30 3)
             (buildContent Examples.short_word)).
  - reflexivity.
  - vm_compute. repeat constructor; discriminate.
Defined.

(** X8: for a resolved [maxWidth] that is not negative the width
    [winSize] returns lies between 0 and [maxWidth], so the floating
    window of [popup] is at most [maxWidth + 2] columns wide. *)
Theorem winSize_width_bounded d content :
  0 <= resolved_maxWidth d ->
  exists h w,
    outcome (winSize d content) = Normal (h, w)
    /\ 0 <= w <= resolved_maxWidth d.
Proof.
  intros Hmw. rewrite winSize_eq. unfold outcome. cbn [snd]. cbv zeta.
  do 2 eexists. split; [reflexivity|]. split.
  - by apply winSize_fold_width_ge.
  - by apply winSize_fold_width_le.
Qed.

Lemma winSize_width_bounded_witness :
  exists h w,
    outcome (winSize (Examples.sized 80 24 5 0)
               (buildContent Examples.short_word)) = Normal (h, w)
    /\ 0 <= w <= 5.
Proof.
  exact (winSize_width_bounded (Examples.sized 80 24 5 0)
           (buildContent Examples.short_word)
           ltac:(vm_compute; discriminate)).
Defined.

Lemma winSize_fold_height_ge nv mw content z w :
  0 < mw ->
  exists z' w',
    winSize_fold nv mw content (Fin z, w) = (Fin z', w')
    /\ z + Z.of_nat (length content) <= z'.
Proof.
  intros Hmw. revert z w.
  induction content as [|line rest IH]; intros z w.
  - exists z, w. split; [done|]. cbn [length]. lia.
  - rewrite winSize_fold_cons. unfold winSize_step.
    set (lw := call nv (lit "strdisplaywidth") line + 2).
    destruct (lw >? mw) eqn:E.
    + unfold Number.Math_floor_div.
      destruct (Z.eqb_spec mw 0); [lia|]. cbn [Number.add].
      destruct (IH (z + (lw / mw + 1)) mw) as (z' & w' & -> & Hz).
      exists z', w'. split; [done|]. zbool.
      assert (1 <= lw / mw) by (apply Z.div_le_lower_bound; lia).
      cbn [length]. lia.
    + cbn [Number.add].
      destruct (IH (z + 1) (Z.max lw w)) as (z' & w' & -> & Hz).
      exists z', w'. split; [done|]. cbn [length]. lia.
Qed.

(** X9: for a positive resolved [maxWidth] every line counts for at
    least one row, so the height [winSize] returns is at least the
    number of lines, unless [maxHeight] cuts it: it is never less than
    the smaller of the two. *)
Theorem winSize_height_at_least d content :
  0 < resolved_maxWidth d ->
  exists z w,
    outcome (winSize d content) = Normal (Fin z, w)
    /\ Z.min (Z.of_nat (length content)) (resolved_maxHeight d) <= z.
Proof.
  intros Hmw. rewrite winSize_eq. unfold outcome. cbn [snd]. cbv zeta.
  destruct (winSize_fold_height_ge (nvim d) (resolved_maxWidth d) content 0 0
              Hmw) as (z' & w' & -> & Hz).
  cbn [fst snd]. unfold clamp_height. cbn [Number.gtb].
  destruct (Z.gtb_spec z' (resolved_maxHeight d)).
  - do 2 eexists. split; [reflexivity|]. lia.
  - do 2 eexists. split; [reflexivity|]. lia.
Qed.

Lemma winSize_height_at_least_witness :
  exists z w,
    outcome (winSize (Examples.sized 80 24 5 0)
               (buildContent Examples.short_word)) = Normal (Fin z, w)
    /\ 10 <= z.
Proof.
  destruct (winSize_height_at_least (Examples.sized 80 24 5 0)
              (buildContent Examples.short_word)
              ltac:(vm_compute; reflexivity)) as (z & w & Hout & Hz).
  exists z, w. split; [exact Hout|].
  etrans; [|exact Hz]. vm_compute. discriminate.
Defined.

(** ** More on [echo] and [replace] (X10, X11) *)

Lemma echo_loop_tracks rest pre st :
  echo_flags_track st pre ->
  echo_flags_track (fold_left echo_step rest st) (pre ++ rest).
Proof.
  revert pre st. induction rest as [|t rest IH]; intros pre st Hst.
  - by rewrite app_nil_r.
  - cbn [fold_left].
    replace (pre ++ t :: rest) with ((pre ++ [t]) ++ rest)
      by (by rewrite <- app_assoc).
    apply IH. by apply echo_step_tracks.
Qed.

Lemma echo_loop_count rest pre st :
  echo_flags_track st pre ->
  length (fragments st)
  = (Nat.b2n (hasPhonetic st) + Nat.b2n (hasParaphrase st)
     + Nat.b2n (hasExplain st))%nat ->
  let st' := fold_left echo_step rest st in
  length (fragments st')
  = (Nat.b2n (hasPhonetic st') + Nat.b2n (hasParaphrase st')
     + Nat.b2n (hasExplain st'))%nat.
Proof.
  revert pre st. induction rest as [|t rest IH]; intros pre st Hst Hcount.
  - done.
  - cbn [fold_left]. destruct (echo_step_tracks st pre t Hst) as [Hst' Hfr].
    apply (IH (pre ++ [t])); [done|].
    rewrite Hfr, !length_app, Hcount.
    destruct Hst' as (-> & -> & ->). destruct Hst as (-> & -> & ->).
    rewrite !none_before_snoc.
    destruct (has_phonetic t), (none_before has_phonetic pre),
      (has_paraphrase t), (none_before has_paraphrase pre),
      (has_explain t), (none_before has_explain pre); reflexivity.
Qed.

(** X10: the message of [echo] has one fragment for each of the three
    fields that some engine has a non-empty value for, so at most three,
    however many engines there are; when no engine has any of the fields
    the message is the text followed by [ ==> ] and nothing more. *)
Theorem echo_fragment_count trans :
  let shown := fragments (fold_left echo_step (results trans) echo_init) in
  length shown
  = (Nat.b2n (negb (none_before has_phonetic (results trans)))
     + Nat.b2n (negb (none_before has_paraphrase (results trans)))
     + Nat.b2n (negb (none_before has_explain (results trans))))%nat
  /\ (length shown <= 3)%nat
  /\ (none_before has_phonetic (results trans) = true ->
      none_before has_paraphrase (results trans) = true ->
      none_before has_explain (results trans) = true ->
      echo trans = ([ShowMessage (text trans ++ lit " ==> ")], Normal tt)).
Proof.
  intros shown.
  pose proof (echo_loop_tracks (results trans) [] echo_init
                ltac:(by repeat split)) as (Hp & Hq & He).
  pose proof (echo_loop_count (results trans) [] echo_init
                ltac:(by repeat split) eq_refl) as Hcount.
  cbv zeta in Hcount. cbn [app] in Hp, Hq, He.
  fold shown in Hcount. rewrite Hp, Hq, He in Hcount.
  split; [done|]. split.
  - rewrite Hcount.
    destruct (none_before has_phonetic _), (none_before has_paraphrase _),
      (none_before has_explain _); cbn; lia.
  - intros Hnp Hnq Hne. rewrite Hnp, Hnq, Hne in Hcount.
    unfold echo, host, echo_message. fold shown.
    destruct shown; [|done]. by rewrite app_nil_r.
Qed.

Lemma echo_fragment_count_witness :
  echo Examples.no_paraphrase = ([ShowMessage (lit "hi ==> ")], Normal tt).
Proof.
  exact (proj2 (proj2 (echo_fragment_count Examples.no_paraphrase))
           eq_refl eq_refl eq_refl).
Defined.




(** * Properties of the documentation generator *)

Import Gendoc.

Section GendocProperties.

Context {json : Type} (printJson : json -> bool -> jsstring).

(** ** [printAsDetails] (X12) *)

Lemma hideLine_nonempty (row : Row json) :
  negb (length (hideLine_of json printJson row) =? 0)%nat
  = has_details json row.
Proof.
  unfold hideLine_of, has_details.
  destruct (truthy (type row)), (default row) as [v|]; cbn [orb app];
    rewrite ?length_app; cbn [length lit Nat.add Nat.eqb negb]; reflexivity.
Qed.

Lemma details_step_block (lines : list jsstring) (row : Row json) :
  details_step json printJson lines row
  = lines ++ details_block json printJson row.
Proof.
  unfold details_step, details_block. cbv zeta.
  rewrite hideLine_nonempty.
  destruct (has_details json row); by rewrite <- ?app_assoc.
Qed.

Lemma printAsDetails_fold (rows : list (Row json)) (lines : list jsstring) :
  fold_left (details_step json printJson) rows lines
  = lines ++ concat (map (details_block json printJson) rows).
Proof.
  revert lines. induction rows as [|row rows IH]; intros lines.
  - by rewrite app_nil_r.
  - cbn [fold_left map concat]. rewrite IH, details_step_block.
    by rewrite <- app_assoc.
Qed.

(** X12: [printAsDetails] gives the rows in their order, a row with
    neither a non-empty type nor a default as its summary line alone and
    any other row as four lines: [<details>], the summary, the line of
    the type and the default, [</details>].  The rows of
    [CommandDocGenerator.generate] have neither, so the commands come
    out as one summary line each. *)
Theorem printAsDetails_blocks :
  (forall rows : list (Row json),
     printAsDetails json printJson rows
     = concat (map (details_block json printJson) rows))
  /\ (forall rows : list (Row json),
        length (printAsDetails json printJson rows)
        = (length rows
           + 3 * length (filter (fun row => has_details json row = true)
                           rows))%nat)
  /\ (forall cmds,
        concat (map (fun section => printAsDetails json printJson
                                      (rows section))
                  (generate_commands json cmds))
        = map (fun cmd =>
                 lit "<summary><code>" ++ command cmd ++ lit "</code>: "
                 ++ cmd_title cmd ++ lit ".</summary>")
            cmds).
Proof.
  assert (Hblocks : forall rows : list (Row json),
            printAsDetails json printJson rows
            = concat (map (details_block json printJson) rows))
    by (intros rows; unfold printAsDetails; by rewrite printAsDetails_fold).
  split; [exact Hblocks|]. split.
  - intros rows. rewrite Hblocks.
    induction rows as [|row rows IH]; [done|].
    cbn [map concat]. rewrite length_app, IH, filter_cons.
    unfold details_block at 1.
    destruct (decide (has_details json row = true)) as [->|Hno].
    + cbn [length]. lia.
    + apply not_true_is_false in Hno. rewrite Hno. cbn [length]. lia.
  - intros cmds. unfold generate_commands. cbn [map concat rows].
    rewrite app_nil_r, Hblocks.
    assert (Hrows : forall acc : list (Row json),
              concat (map (details_block json printJson)
                        (fold_left
                           (fun rows cmd =>
                              rows ++ [Build_Row (command cmd) (cmd_title cmd)
                                         None None])
                           cmds acc))
              = concat (map (details_block json printJson) acc)
                ++ map (fun cmd =>
                          lit "<summary><code>" ++ command cmd
                          ++ lit "</code>: " ++ cmd_title cmd
                          ++ lit ".</summary>")
                     cmds).
    { induction cmds as [|cmd cmds IH]; intros acc.
      - by rewrite app_nil_r.
      - cbn [fold_left map]. rewrite IH, map_app, concat_app.
        by rewrite <- app_assoc. }
    by rewrite Hrows.
Qed.

(** ** The pattern that ends the section (X13) *)

Lemma at_some_position_true here s :
  at_some_position here s = true <->
  exists pre suf, s = pre ++ suf /\ here suf = true.
Proof.
  split.
  - induction s as [|c s IH]; cbn [at_some_position]; intros H.
    + rewrite orb_false_r in H. by exists [], [].
    + apply orb_true_iff in H as [H|H].
      * by exists [], (c :: s).
      * destruct (IH H) as (pre & suf & -> & Hsuf).
        by exists (c :: pre), suf.
  - intros (pre & suf & -> & Hsuf).
    induction pre as [|c pre IH].
    + destruct suf; cbn [app at_some_position]; by rewrite Hsuf.
    + cbn [app at_some_position]. rewrite IH. apply orb_true_r.
Qed.

Lemma hashes_then_other_true n s :
  hashes_then_other n s = true ->
  exists hs c post,
    s = hs ++ c :: post /\ Forall (fun x => x = hash) hs /\ c <> hash.
Proof.
  revert s. induction n as [|n IH]; intros [|c s]; cbn [hashes_then_other];
    try done.
  - destruct (N.eqb_spec c hash) as [->|Hc]; [done|]. intros _.
    by exists [], c, s.
  - destruct (N.eqb_spec c hash) as [->|Hc].
    + intros H. destruct (IH s H) as (hs & c & post & -> & Hhs & Hc).
      exists (hash :: hs), c, post. split; [done|]. split; [|done].
      by constructor.
    + intros _. by exists [], c, s.
Qed.

Lemma hashes_snoc hs :
  Forall (fun x => x = hash) hs -> hash :: hs = hs ++ [hash].
Proof.
  induction 1 as [|x hs -> _ IH]; [done|]. cbn [app]. by rewrite <- IH.
Qed.

(** X13: for every level from 1 on, the pattern that ends the section
    under the header matches a line exactly when the line has, anywhere,
    a [#] followed by a code unit that is not [#]; the level plays no
    part.  So a heading of a deeper level, or a [#] inside a sentence,
    ends the section as well. *)
Theorem test_heading_any_level headLevel line :
  (1 <= headLevel)%nat ->
  (test_heading headLevel line = true <-> hash_then_other line)
  /\ test_heading headLevel line = test_heading 1 line.
Proof.
  intros Hlevel.
  assert (Hchar : forall n, (1 <= n)%nat ->
            test_heading n line = true <-> hash_then_other line).
  { intros [|n] Hn; [lia|]. unfold test_heading.
    rewrite at_some_position_true. split.
    - intros (pre & [|c s] & -> & Hhere); [done|].
      apply andb_true_iff in Hhere as [Hc Hrest].
      apply N.eqb_eq in Hc. subst c.
      destruct (hashes_then_other_true _ _ Hrest)
        as (hs & c & post & -> & Hhs & Hc).
      exists (pre ++ hs), c, post. split; [|done].
      rewrite app_comm_cons, (hashes_snoc hs Hhs).
      by rewrite <- !app_assoc.
    - intros (pre & c & post & -> & Hc).
      exists pre, (hash :: c :: post). split; [done|].
      rewrite N.eqb_refl. cbn [andb].
      destruct n; cbn [hashes_then_other];
        by destruct (N.eqb_spec c hash). }
  split; [by apply Hchar|].
  destruct (test_heading headLevel line) eqn:E1,
    (test_heading 1 line) eqn:E2; try done.
  - apply (Hchar _ Hlevel), (Hchar 1%nat) in E1; [congruence|lia].
  - apply (Hchar 1%nat), (Hchar _ Hlevel) in E2; [congruence|lia].
Qed.

Lemma test_heading_any_level_witness :
  test_heading 2 (lit "### deeper") = true
  /\ test_heading 2 (lit "see issue #12") = test_heading 1 (lit "see issue #12").
Proof.
  split.
  - apply (proj1 (test_heading_any_level 2 (lit "### deeper") ltac:(lia))).
    exists (lit "##"), 32%N, (lit "deeper"). split; [reflexivity|discriminate].
  - exact (proj2 (test_heading_any_level 2 (lit "see issue #12")
                    ltac:(lia))).
Defined.

(** ** [attach] (X14, X15, X16, X17) *)

Lemma findIndex_none {A} (test : A -> bool) (arr : list A) :
  findIndex test arr = None <-> Forall (fun x => test x = false) arr.
Proof.
  induction arr as [|x rest IH]; cbn [findIndex].
  - split; [constructor|done].
  - destruct (test x) eqn:E.
    + split; [done|]. intros H. apply Forall_cons in H as [H _]. congruence.
    + rewrite fmap_None, IH. split.
      * intros H. by constructor.
      * intros H. by apply Forall_cons in H as [_ H].
Qed.

Lemma findIndex_first {A} (test : A -> bool) (before : list A) x rest :
  Forall (fun y => test y = false) before ->
  test x = true ->
  findIndex test (before ++ x :: rest) = Some (length before).
Proof.
  induction 1 as [|y before Hy _ IH]; intros Hx; cbn [app findIndex length].
  - by rewrite Hx.
  - by rewrite Hy, IH.
Qed.

Lemma split_lines_cons s : exists line lines, split_lines s = line :: lines.
Proof.
  destruct s as [|c s]; cbn [split_lines]; [by eexists _, _|].
  destruct (N.eqb c 10); [by eexists _, _|].
  destruct (split_lines s); by eexists _, _.
Qed.

Lemma split_lines_app_newline a b :
  split_lines (a ++ 10%N :: b) = split_lines a ++ split_lines b.
Proof.
  induction a as [|c a IH]; cbn [app split_lines].
  - done.
  - destruct (N.eqb c 10); rewrite IH; [done|].
    by destruct (split_lines_cons a) as (line & lines & ->).
Qed.

Lemma join_cons_cons sep (x y : jsstring) ys :
  join sep (x :: y :: ys) = x ++ sep ++ join sep (y :: ys).
Proof. cbn [join map concat]. by rewrite <- app_assoc. Qed.

Lemma split_lines_join x xs :
  split_lines (join newline (x :: xs)) = concat (map split_lines (x :: xs)).
Proof.
  revert x. induction xs as [|y ys IH]; intros x.
  - cbn [join map concat]. by rewrite !app_nil_r.
  - rewrite join_cons_cons. unfold newline at 1. cbn [app].
    rewrite split_lines_app_newline, IH. done.
Qed.

Lemma split_lines_no_newline s :
  Forall (fun line => split_lines line = [line]) (split_lines s).
Proof.
  induction s as [|c s IH]; cbn [split_lines].
  - by constructor.
  - destruct (N.eqb c 10) eqn:E; [by constructor|].
    destruct (split_lines s) as [|line lines]; [by repeat constructor; cbn; rewrite E|].
    apply Forall_cons in IH as [Hline Hlines].
    constructor; [|done]. cbn [split_lines]. by rewrite E, Hline.
Qed.

Lemma concat_split_lines_id lines :
  Forall (fun line => split_lines line = [line]) lines ->
  concat (map split_lines lines) = lines.
Proof.
  induction 1 as [|line lines Hline _ IH]; [done|].
  cbn [map concat]. by rewrite Hline, IH.
Qed.

Lemma generated_lines_cons generateCommand (sections : list (DocSection json)) :
  exists rest,
    generated_lines json printJson generateCommand sections = [] :: rest.
Proof.
  unfold generated_lines. cbv zeta.
  assert (H : forall acc : list jsstring, forall tl,
            acc = [] :: tl ->
            exists rest,
              fold_left
                (fun lines (section : DocSection json) =>
                   (if truthy (title section)
                    then lines ++ [lit "<strong>" ++ interp (title section)
                                   ++ lit "</strong>"]
                    else lines)
                   ++ printAsDetails json printJson (rows section))
                sections acc = [] :: rest).
  { induction sections as [|sec sections IH]; intros acc tl ->.
    - by eexists.
    - cbn [fold_left]. destruct (truthy (title sec)); by eapply IH. }
  destruct (H [[]; hint generateCommand; ignorePrettierStart] _ eq_refl)
    as [rest ->].
  by eexists.
Qed.

(** What [attach] does once the header is found at the end of [before]. *)
Lemma attach_found generateCommand (sections : list (DocSection json))
    headLevel attachTitle markdownPath markdown before header below :
  (1 <= headLevel)%nat ->
  split_lines markdown = before ++ header :: below ->
  Forall (fun line => test_title headLevel attachTitle line = false) before ->
  test_title headLevel attachTitle header = true ->
  let removeCount :=
    match findIndex (test_heading headLevel) below with
    | Some e => e
    | None => O
    end in
  let text :=
    join newline
      (before
       ++ header
          :: generated_lines json printJson generateCommand sections
          ++ drop removeCount below) in
  attach json printJson generateCommand sections headLevel attachTitle
    markdownPath markdown
  = ([ReadFile markdownPath; Generate; ConsoleLog text;
      WriteFile markdownPath text;
      ConsoleLog (lit "Attached to " ++ attachTitle ++ lit " header")],
     Done).
Proof.
  intros Hlevel Hsplit Hbefore Hheader removeCount text.
  unfold attach. cbv zeta. rewrite Hsplit.
  rewrite (findIndex_first _ _ _ _ Hbefore Hheader).
  assert (Hdrop : drop (Datatypes.S (length before)) (before ++ header :: below)
                  = below).
  { replace (before ++ header :: below) with ((before ++ [header]) ++ below)
      by (by rewrite <- app_assoc).
    apply drop_app_length'. rewrite length_app. cbn [length]. lia. }
  rewrite Hdrop.
  assert (Hsplice : splice (before ++ header :: below)
                      (Datatypes.S (length before)) removeCount
                      (generated_lines json printJson generateCommand sections)
                    = before
                      ++ header
                         :: generated_lines json printJson generateCommand
                              sections
                         ++ drop removeCount below).
  { unfold splice.
    replace (before ++ header :: below) with ((before ++ [header]) ++ below)
      by (by rewrite <- app_assoc).
    assert (Hlen : length (before ++ [header]) = Datatypes.S (length before))
      by (rewrite length_app; cbn [length]; lia).
    rewrite <- Hlen, take_app_length, drop_app_add.
    by rewrite <- app_assoc. }
  fold removeCount. rewrite Hsplice. fold text.
  destruct headLevel as [|n]; [lia|]. by destruct below.
Qed.
Lemma findIndex_some {A} (test : A -> bool) (arr : list A) i :
  findIndex test arr = Some i ->
  exists before x rest,
    arr = before ++ x :: rest /\ length before = i
    /\ Forall (fun y => test y = false) before /\ test x = true.
Proof.
  revert i. induction arr as [|y arr IH]; intros i; cbn [findIndex]; [done|].
  destruct (test y) eqn:E.
  - intros [= <-]. by exists [], y, arr.
  - intros H. apply fmap_Some in H as (j & Hj & ->).
    destruct (IH j Hj) as (before & x & rest & -> & <- & Hbefore & Hx).
    exists (y :: before), x, rest. repeat split; [|done]. by constructor.
Qed.

(** X14: for a title that is matched literally, [attach] reads the file
    first, and goes on to [generate] and to write the file only when some
    line matches the header pattern: with no such line it completes after
    the read alone, whatever the level, and for a level from 1 on it
    writes exactly when there is one. *)
Theorem attach_needs_header generateCommand (sections : list (DocSection json))
    headLevel attachTitle markdownPath markdown :
  literal_title attachTitle = true ->
  (Forall (fun line => test_title headLevel attachTitle line = false)
     (split_lines markdown) ->
   attach json printJson generateCommand sections headLevel attachTitle
     markdownPath markdown
   = ([ReadFile markdownPath], Done))
  /\ ((1 <= headLevel)%nat ->
      (exists text,
         written (fst (attach json printJson generateCommand sections
                         headLevel attachTitle markdownPath markdown))
         = Some text)
      <-> Exists (fun line => test_title headLevel attachTitle line = true)
            (split_lines markdown)).
Proof.
  intros _. split.
  - intros Hnone. unfold attach. cbv zeta.
    by rewrite (proj2 (findIndex_none _ _) Hnone).
  - intros Hlevel.
    destruct (findIndex (test_title headLevel attachTitle)
                (split_lines markdown)) as [i|] eqn:Hfind.
    + destruct (findIndex_some _ _ _ Hfind)
        as (before & header & below & Hsplit & _ & Hbefore & Hheader).
      rewrite (attach_found generateCommand sections headLevel attachTitle
                 markdownPath markdown before header below)
        by done.
      cbn [fst written]. split; [|by eexists].
      intros _. rewrite Hsplit. apply Exists_app. right. by constructor.
    + unfold attach. cbv zeta. rewrite Hfind. cbn [fst written].
      split; [by intros [text ?]|].
      intros Hex. apply findIndex_none in Hfind.
      apply Exists_exists in Hex as (line & Hin & Hline).
      rewrite Forall_forall in Hfind. rewrite (Hfind line Hin) in Hline.
      done.
Qed.

(** The text written when a heading line follows the section. *)
Lemma attach_section_text generateCommand
    (sections : list (DocSection json)) headLevel attachTitle markdownPath
    markdown before header old next after :
  (1 <= headLevel)%nat ->
  split_lines markdown = before ++ header :: old ++ next :: after ->
  Forall (fun line => test_title headLevel attachTitle line = false) before ->
  test_title headLevel attachTitle header = true ->
  Forall (fun line => test_heading headLevel line = false) old ->
  test_heading headLevel next = true ->
  written (fst (attach json printJson generateCommand sections headLevel
                  attachTitle markdownPath markdown))
  = Some (join newline
            (before
             ++ header
                :: generated_lines json printJson generateCommand sections
                ++ next :: after)).
Proof.
  intros Hlevel Hsplit Hbefore Hheader Hold Hnext.
  rewrite (attach_found generateCommand sections headLevel attachTitle
             markdownPath markdown before header (old ++ next :: after))
    by done.
  cbn [fst written].
  rewrite (findIndex_first _ _ _ _ Hold Hnext).
  by rewrite drop_app_length.
Qed.

(** X15: when the lines of the file are [before], the first line that
    matches the header pattern, the lines [old] none of which matches the
    heading pattern, a line [next] that matches it, and [after], then
    [attach] (for a title that is matched literally and a level from 1
    on) writes the file with [old] replaced by the generated lines and
    everything else, in particular [next] and [after], as it was. *)
Theorem attach_replaces_section generateCommand
    (sections : list (DocSection json)) headLevel attachTitle markdownPath
    markdown before header old next after :
  literal_title attachTitle = true ->
  (1 <= headLevel)%nat ->
  split_lines markdown = before ++ header :: old ++ next :: after ->
  Forall (fun line => test_title headLevel attachTitle line = false) before ->
  test_title headLevel attachTitle header = true ->
  Forall (fun line => test_heading headLevel line = false) old ->
  test_heading headLevel next = true ->
  written (fst (attach json printJson generateCommand sections headLevel
                  attachTitle markdownPath markdown))
  = Some (join newline
            (before
             ++ header
                :: generated_lines json printJson generateCommand sections
                ++ next :: after)).
Proof.
  intros. by apply attach_section_text with (old := old).
Qed.

(** X16: when no line under the header matches the heading pattern (the
    section is the last of the file), [attach] (for a title that is
    matched literally and a level from 1 on) removes nothing: it writes
    the file with the generated lines put right under the header and all
    the lines that were under it kept after them. *)
Theorem attach_last_section_keeps_lines generateCommand
    (sections : list (DocSection json)) headLevel attachTitle markdownPath
    markdown before header below :
  literal_title attachTitle = true ->
  (1 <= headLevel)%nat ->
  split_lines markdown = before ++ header :: below ->
  Forall (fun line => test_title headLevel attachTitle line = false) before ->
  test_title headLevel attachTitle header = true ->
  Forall (fun line => test_heading headLevel line = false) below ->
  written (fst (attach json printJson generateCommand sections headLevel
                  attachTitle markdownPath markdown))
  = Some (join newline
            (before
             ++ header
                :: generated_lines json printJson generateCommand sections
                ++ below)).
Proof.
  intros _ Hlevel Hsplit Hbefore Hheader Hbelow.
  rewrite (attach_found generateCommand sections headLevel attachTitle
             markdownPath markdown before header below)
    by done.
  cbn [fst written].
  by rewrite (proj2 (findIndex_none _ _) Hbelow), drop_0.
Qed.

Lemma split_lines_join_nonempty (lines : list jsstring) :
  lines <> [] ->
  split_lines (join newline lines) = concat (map split_lines lines).
Proof. destruct lines as [|x xs]; [done|]. intros _. apply split_lines_join. Qed.

(** X17: running [attach] again on what it wrote changes nothing, when
    the title is matched literally, the section has a heading line after
    it and no line of the generated text matches the heading pattern:
    with the lines of the file as in X15, the text written for the file
    is also the text written when the file already holds that text. *)
Theorem attach_twice generateCommand (sections : list (DocSection json))
    headLevel attachTitle markdownPath markdown before header old next after :
  literal_title attachTitle = true ->
  (1 <= headLevel)%nat ->
  split_lines markdown = before ++ header :: old ++ next :: after ->
  Forall (fun line => test_title headLevel attachTitle line = false) before ->
  test_title headLevel attachTitle header = true ->
  Forall (fun line => test_heading headLevel line = false) old ->
  test_heading headLevel next = true ->
  Forall (fun line => test_heading headLevel line = false)
    (split_lines
       (join newline
          (generated_lines json printJson generateCommand sections))) ->
  exists text,
    written (fst (attach json printJson generateCommand sections headLevel
                    attachTitle markdownPath markdown))
    = Some text
    /\ written (fst (attach json printJson generateCommand sections headLevel
                       attachTitle markdownPath text))
       = Some text.
Proof.
  intros _ Hlevel Hsplit Hbefore Hheader Hold Hnext Hgen.
  set (G := generated_lines json printJson generateCommand sections) in *.
  exists (join newline (before ++ header :: G ++ next :: after)).
  split; [by apply attach_section_text with (old := old)|].
  pose proof (split_lines_no_newline markdown) as Hnl.
  rewrite Hsplit in Hnl.
  apply Forall_app in Hnl as [Hnl_before Hnl].
  apply Forall_cons in Hnl as [Hnl_header Hnl].
  apply Forall_app in Hnl as [_ Hnl].
  apply Forall_cons in Hnl as [Hnl_next Hnl_after].
  destruct (generated_lines_cons generateCommand sections) as [rest HG].
  fold G in HG.
  assert (Hsplit' :
            split_lines (join newline (before ++ header :: G ++ next :: after))
            = before ++ header :: split_lines (join newline G)
                        ++ next :: after).
  { rewrite split_lines_join_nonempty by (by destruct before).
    rewrite (split_lines_join_nonempty G) by (by rewrite HG).
    rewrite map_app, concat_app. cbn [map concat].
    rewrite map_app, concat_app. cbn [map concat].
    rewrite (concat_split_lines_id before), (concat_split_lines_id after)
      by done.
    rewrite Hnl_header, Hnl_next. by cbn [app]. }
  by apply attach_section_text
    with (old := split_lines (join newline G)).
Qed.

End GendocProperties.

(** ** The theorems with hypotheses, on the README of the examples *)

Lemma attach_needs_header_witness :
  attach Z GendocExamples.printJson (lit "yarn run bulid:doc")
    GendocExamples.sections 2 (lit "Commands") (lit "README.md")
    GendocExamples.readme
  = ([ReadFile (lit "README.md")], Done)
  /\ exists text,
       written (fst (attach Z GendocExamples.printJson
                       (lit "yarn run bulid:doc") GendocExamples.sections 2
                       (lit "Configuration") (lit "README.md")
                       GendocExamples.readme))
       = Some text.
Proof.
  split.
  - apply (proj1 (attach_needs_header GendocExamples.printJson
                    (lit "yarn run bulid:doc") GendocExamples.sections 2
                    (lit "Commands") (lit "README.md")
                    GendocExamples.readme eq_refl)).
    vm_compute. repeat constructor.
  - apply (proj2 (attach_needs_header GendocExamples.printJson
                    (lit "yarn run bulid:doc") GendocExamples.sections 2
                    (lit "Configuration") (lit "README.md")
                    GendocExamples.readme eq_refl) ltac:(lia)).
    vm_compute. apply Exists_cons_tl, Exists_cons_hd. reflexivity.
Defined.

Lemma attach_replaces_section_witness :
  written (fst (attach Z GendocExamples.printJson (lit "yarn run bulid:doc")
                  GendocExamples.sections 2 (lit "Configuration")
                  (lit "README.md") GendocExamples.readme))
  = Some (join newline
            ([lit "# coc-translator"]
             ++ lit "## Configuration"
                :: generated_lines Z GendocExamples.printJson
                     (lit "yarn run bulid:doc") GendocExamples.sections
                ++ lit "## License" :: [lit "MIT"])).
Proof.
  apply (attach_replaces_section GendocExamples.printJson
           (lit "yarn run bulid:doc") GendocExamples.sections 2
           (lit "Configuration") (lit "README.md") GendocExamples.readme
           [lit "# coc-translator"] (lit "## Configuration")
           [lit "old text"] (lit "## License") [lit "MIT"]);
    [reflexivity | lia | reflexivity | | reflexivity | | reflexivity];
    repeat constructor.
Defined.

Lemma attach_last_section_keeps_lines_witness :
  written (fst (attach Z GendocExamples.printJson (lit "yarn run bulid:doc")
                  GendocExamples.sections 2 (lit "Configuration")
                  (lit "README.md") GendocExamples.readme_last))
  = Some (join newline
            ([lit "# coc-translator"]
             ++ lit "## Configuration"
                :: generated_lines Z GendocExamples.printJson
                     (lit "yarn run bulid:doc") GendocExamples.sections
                ++ [lit "old text"])).
Proof.
  apply (attach_last_section_keeps_lines GendocExamples.printJson
           (lit "yarn run bulid:doc") GendocExamples.sections 2
           (lit "Configuration") (lit "README.md") GendocExamples.readme_last
           [lit "# coc-translator"] (lit "## Configuration")
           [lit "old text"]);
    [reflexivity | lia | reflexivity | | reflexivity | ];
    repeat constructor.
Defined.

Lemma attach_twice_witness :
  exists text,
    written (fst (attach Z GendocExamples.printJson (lit "yarn run bulid:doc")
                    GendocExamples.sections 2 (lit "Configuration")
                    (lit "README.md") GendocExamples.readme))
    = Some text
    /\ written (fst (attach Z GendocExamples.printJson
                       (lit "yarn run bulid:doc") GendocExamples.sections 2
                       (lit "Configuration") (lit "README.md") text))
       = Some text.
Proof.
  apply (attach_twice GendocExamples.printJson
           (lit "yarn run bulid:doc") GendocExamples.sections 2
           (lit "Configuration") (lit "README.md") GendocExamples.readme
           [lit "# coc-translator"] (lit "## Configuration")
           [lit "old text"] (lit "## License") [lit "MIT"]);
    [reflexivity | lia | reflexivity | | reflexivity | | reflexivity | ];
    [repeat constructor | repeat constructor |].
  vm_compute. repeat constructor.
Defined.
